(** * Catalog read path and response cache: a shallow embedding

    The development follows the product controller (pagination, filter and
    sort resolvers, the detail and write handlers) and the in-memory
    response cache middleware of the repository.

    Conventions of the embedding.
    - A JavaScript string is a [string]; a character stands for the UTF-16
      code unit of the same number, so the strings covered are those whose
      code units are below 256.
    - [Date.now()] and TTLs are integers ([Z], milliseconds and seconds).
    - The numbers of the pagination arithmetic are doubles: [NaN], an
      infinity, or an integer-valued double held by its value; reading a
      digit run and every operation round the exact result to the nearest
      double (ties to even), an infinity from 2^1024 on.
    - A plain JavaScript object used as a dictionary (the query mapping,
      the filter, the cache [Map]) is a [gmap] with string keys; a missing
      key reads as [None], which is how [undefined] is represented. *)

From Stdlib Require Import ZArith Ascii SpecFloat.
From stdpp Require Import gmap strings list.

Local Open Scope Z_scope.
Local Set Warnings "-register-all".

(** ** JavaScript runtime primitives used by the source *)

Module Js.

(** WhiteSpace and LineTerminator code units below 256: TAB, LF, VT, FF,
    CR, SP and NBSP. *)
Definition isWhiteSpace (c : ascii) : bool :=
  match N_of_ascii c with
  | 9 | 10 | 11 | 12 | 13 | 32 | 160 => true
  | _ => false
  end%N.

Fixpoint trimStart (s : string) : string :=
  match s with
  | String c s' => if isWhiteSpace c then trimStart s' else s
  | EmptyString => EmptyString
  end.

Fixpoint trimEnd (s : string) : string :=
  match s with
  | String c s' =>
      match trimEnd s' with
      | EmptyString => if isWhiteSpace c then EmptyString else String c EmptyString
      | t => String c t
      end
  | EmptyString => EmptyString
  end.

(** [String.prototype.trim] *)
Definition trim (s : string) : string := trimEnd (trimStart s).

(** Lower-case mapping of one code unit below 256: A-Z, and the Latin-1
    capitals U+00C0-U+00DE except the multiplication sign U+00D7. *)
Definition lowerChar (c : ascii) : ascii :=
  let n := N_of_ascii c in
  if ((65 <=? n) && (n <=? 90) || (192 <=? n) && (n <=? 222) && negb (n =? 215))%N
  then ascii_of_N (n + 32) else c.

(** [String.prototype.toLowerCase] *)
Fixpoint toLowerCase (s : string) : string :=
  match s with
  | String c s' => String (lowerChar c) (toLowerCase s')
  | EmptyString => EmptyString
  end.

(** [String.prototype.split] with a one-character separator. *)
Fixpoint split (sep : ascii) (s : string) : list string :=
  match s with
  | EmptyString => [EmptyString]
  | String c s' =>
      if Ascii.eqb c sep then EmptyString :: split sep s'
      else match split sep s' with
           | piece :: rest => String c piece :: rest
           | [] => [String c EmptyString]
           end
  end.

(** [s.startsWith('-')] *)
Definition startsWithDash (s : string) : bool :=
  match s with
  | String c _ => Ascii.eqb c "-"
  | EmptyString => false
  end.

(** [s.replace(/^-/, '')]: removes one leading dash. *)
Definition stripLeadingDash (s : string) : string :=
  match s with
  | String c s' => if Ascii.eqb c "-" then s' else s
  | EmptyString => EmptyString
  end.

(** The numbers of the pagination arithmetic. Every number that arises
    there is [NaN], an infinity, or a double whose value is an integer:
    [Num z] is the double of value [z] (a double of magnitude 2^53 or more
    is an integer; the two zeros are not told apart, no operation here
    does). *)
Inductive number : Type :=
| NaN
| Num (z : Z)
| Infinity (negative : bool).

(** A non-negative integer rounded to 53 significant bits, to nearest with
    ties to even: below 2^53 it is kept; above, the bits past the 53rd are
    dropped and the last kept bit goes up when they are more than half of
    it, or exactly half with that bit odd. *)
Definition roundMagnitude (n : Z) : Z :=
  if n <? 9007199254740992 then n
  else
    let sh := Z.log2 n - 52 in
    let q := Z.shiftr n sh in
    let r := n - Z.shiftl q sh in
    let half := 2 ^ (sh - 1) in
    let q' := if (half <? r) || ((r =? half) && Z.odd q) then q + 1 else q in
    Z.shiftl q' sh.

(** The double nearest to an integer, which is what an operation on
    integer-valued doubles returns for its exact result: an integer that
    rounds to 2^1024 or more is an infinity. *)
Definition ofInteger (z : Z) : number :=
  let m := roundMagnitude (Z.abs z) in
  if 2 ^ 1024 <=? m then Infinity (z <? 0) else Num (Z.sgn z * m).

(** [Number.isNaN] *)
Definition isNaN (n : number) : bool :=
  match n with NaN => true | _ => false end.

(** [a < b] and [a > b]; any comparison with [NaN] is false. *)
Definition lt (a b : number) : bool :=
  match a, b with
  | NaN, _ | _, NaN => false
  | Num x, Num y => x <? y
  | Infinity na, Infinity nb => na && negb nb
  | Infinity na, Num _ => na
  | Num _, Infinity nb => negb nb
  end.
Definition gt (a b : number) : bool := lt b a.

(** [a - b] and [a * b] *)
Definition sub (a b : number) : number :=
  match a, b with
  | NaN, _ | _, NaN => NaN
  | Num x, Num y => ofInteger (x - y)
  | Infinity na, Infinity nb => if Bool.eqb na nb then NaN else Infinity na
  | Infinity na, Num _ => Infinity na
  | Num _, Infinity nb => Infinity (negb nb)
  end.
Definition mul (a b : number) : number :=
  match a, b with
  | NaN, _ | _, NaN => NaN
  | Num x, Num y => ofInteger (x * y)
  | Infinity na, Infinity nb => Infinity (xorb na nb)
  | Infinity na, Num y => if y =? 0 then NaN else Infinity (xorb na (y <? 0))
  | Num x, Infinity nb => if x =? 0 then NaN else Infinity (xorb (x <? 0) nb)
  end.

Definition digitValue (c : ascii) : option Z :=
  let n := N_of_ascii c in
  if ((48 <=? n) && (n <=? 57))%N then Some (Z.of_N n - 48) else None.

(** Reads the longest prefix of decimal digits: [acc] is the value read so
    far and [seen] tells whether a digit was read. *)
Fixpoint readDigits (s : string) (acc : Z) (seen : bool) : option Z :=
  match s with
  | String c s' =>
      match digitValue c with
      | Some d => readDigits s' (10 * acc + d) true
      | None => if seen then Some acc else None
      end
  | EmptyString => if seen then Some acc else None
  end.

(** The integer that [Number.parseInt(s, 10)] reads off a string: leading
    white space is skipped, one sign is read, then the longest run of
    decimal digits; without a digit there is none. Radix 10 strips no [0x]
    prefix. *)
Definition mathInt (s : string) : option Z :=
  let t := trimStart s in
  let '(negative, body) :=
    match t with
    | String c r =>
        if Ascii.eqb c "-" then (true, r)
        else if Ascii.eqb c "+" then (false, r)
        else (false, t)
    | EmptyString => (false, t)
    end in
  match readDigits body 0 false with
  | Some m => Some (if negative then - m else m)
  | None => None
  end.

(** [Number.parseInt(s, 10)]: the double nearest to the integer read, [NaN]
    when there is none. *)
Definition parseIntStr (s : string) : number :=
  match mathInt s with
  | Some v => ofInteger v
  | None => NaN
  end.

(** The result of [Number(s)]: [NaN], an infinity, or the mathematical value
    [digits * 10 ^ exponent] of the literal with its sign, before it is
    rounded to a double. *)
Inductive numeric : Type :=
| NumNaN
| NumInfinity (negative : bool)
| NumDecimal (negative : bool) (digits : N) (exponent : Z).

(** Value of a digit in radix 2, 8, 10 or 16. *)
Definition radixDigit (radix : N) (c : ascii) : option N :=
  let n := N_of_ascii c in
  let v :=
    if ((48 <=? n) && (n <=? 57))%N then Some (n - 48)%N
    else if ((97 <=? n) && (n <=? 102))%N then Some (n - 87)%N
    else if ((65 <=? n) && (n <=? 70))%N then Some (n - 55)%N
    else None in
  match v with
  | Some d => if (d <? radix)%N then Some d else None
  | None => None
  end.

(** Reads the longest run of digits of the radix: the value, the number of
    digits read and the rest of the string. *)
Fixpoint readRun (radix : N) (s : string) (acc : N) (count : nat)
  : N * nat * string :=
  match s with
  | String c s' =>
      match radixDigit radix c with
      | Some d => readRun radix s' (radix * acc + d)%N (S count)
      | None => (acc, count, s)
      end
  | EmptyString => (acc, count, s)
  end.

(** A literal made of digits of the radix only, and of at least one. *)
Definition wholeRun (radix : N) (s : string) : numeric :=
  match readRun radix s 0%N 0%nat with
  | (v, S _, EmptyString) => NumDecimal false v 0
  | _ => NumNaN
  end.

(** ExponentPart, optional: [e] or [E], an optional sign, digits; nothing
    may follow. *)
Definition readExponent (s : string) : option Z :=
  match s with
  | EmptyString => Some 0
  | String c r =>
      if Ascii.eqb c "e" || Ascii.eqb c "E" then
        let '(negative, body) :=
          match r with
          | String d r' =>
              if Ascii.eqb d "-" then (true, r')
              else if Ascii.eqb d "+" then (false, r')
              else (false, r)
          | EmptyString => (false, r)
          end in
        match readRun 10 body 0%N 0%nat with
        | (v, S _, EmptyString) => Some (if negative then - Z.of_N v else Z.of_N v)
        | _ => None
        end
      else None
  end.

(** StrUnsignedDecimalLiteral: [Infinity], or digits with an optional
    fraction and exponent, or a fraction with an optional exponent. *)
Definition unsignedDecimal (negative : bool) (s : string) : numeric :=
  if String.eqb s "Infinity" then NumInfinity negative
  else
    let '(ip, ni, r1) := readRun 10 s 0%N 0%nat in
    match r1 with
    | String c r =>
        if Ascii.eqb c "." then
          let '(m, n, r2) := readRun 10 r ip ni in
          match n, readExponent r2 with
          | S _, Some e => NumDecimal negative m (e - Z.of_nat (n - ni))
          | _, _ => NumNaN
          end
        else
          match ni, readExponent r1 with
          | S _, Some e => NumDecimal negative ip e
          | _, _ => NumNaN
          end
    | EmptyString =>
        match ni with
        | S _ => NumDecimal negative ip 0
        | O => NumNaN
        end
    end.

(** StringToNumber, the conversion behind [Number(s)]: surrounding white
    space is dropped; the empty string is zero; a binary, octal or
    hexadecimal literal takes no sign; anything outside the grammar is
    [NaN]. *)
Definition stringToNumber (s : string) : numeric :=
  match trim s with
  | EmptyString => NumDecimal false 0 0
  | String c r as t =>
      match r with
      | String x body =>
          if Ascii.eqb c "0" && (Ascii.eqb x "x" || Ascii.eqb x "X") then wholeRun 16 body
          else if Ascii.eqb c "0" && (Ascii.eqb x "o" || Ascii.eqb x "O") then wholeRun 8 body
          else if Ascii.eqb c "0" && (Ascii.eqb x "b" || Ascii.eqb x "B") then wholeRun 2 body
          else if Ascii.eqb c "-" then unsignedDecimal true r
          else if Ascii.eqb c "+" then unsignedDecimal false r
          else unsignedDecimal false t
      | EmptyString => unsignedDecimal false t
      end
  end.

End Js.

(** ** Query mappings

    A value of the parsed query string: a string, or an array or an object
    of such values (repeated and bracketed parameters). *)

Inductive qval : Type :=
| QStr (s : string)
| QArr (items : list qval)
| QObj (fields : list (string * qval)).

(** [Array.prototype.join(',')] over already converted items. *)
Fixpoint joinComma (l : list string) : string :=
  match l with
  | [] => ""
  | [s] => s
  | s :: rest => s +:+ "," +:+ joinComma rest
  end.

(** [String(v)] of a present query value. *)
Fixpoint qToString (v : qval) : string :=
  match v with
  | QStr s => s
  | QArr items => joinComma (map qToString items)
  | QObj _ => "[object Object]"
  end.

(** [String(v)] of a property read: a missing key reads [undefined]. *)
Definition toString (v : option qval) : string :=
  match v with
  | Some q => qToString q
  | None => "undefined"
  end.

(** Truthiness of a property read: [undefined] and the empty string are
    falsy, arrays and objects are truthy. *)
Definition truthy (v : option qval) : bool :=
  match v with
  | None => false
  | Some (QStr s) => negb (String.eqb s "")
  | Some _ => true
  end.

(** [Number.parseInt(v, 10)] of a property read. *)
Definition parseInt (v : option qval) : Js.number := Js.parseIntStr (toString v).

(** ** Pagination resolver *)

Record pagination : Type := Pagination {
  page : Js.number;
  limit : Js.number;
  skip : Js.number
}.

Definition DEFAULT_PAGE : Js.number := Js.Num 1.
Definition DEFAULT_LIMIT : Js.number := Js.Num 20.
Definition MAX_LIMIT : Js.number := Js.Num 100.

Definition parsePagination (query : gmap string qval) : pagination :=
  let page := parseInt (query !! "page") in
  let limit := parseInt (query !! "limit") in
  let page :=
    if Js.isNaN page || Js.lt page (Js.Num 1) then DEFAULT_PAGE else page in
  let limit :=
    if Js.isNaN limit || Js.lt limit (Js.Num 1) || Js.gt limit MAX_LIMIT
    then DEFAULT_LIMIT else limit in
  let skip := Js.mul (Js.sub page (Js.Num 1)) limit in
  {| page := page; limit := limit; skip := skip |}.


(** ** Filter builder *)

(** A price bound as the builder holds it: [undefined] when the parameter
    is missing, otherwise the number its value converts to. *)
Inductive priceBound : Type :=
| Undefined
| Bound (n : Js.numeric).

(** [Number.isNaN(b)]: true for the number [NaN] only; no coercion takes
    place, so [undefined] is not [NaN]. *)
Definition boundIsNaN (b : priceBound) : bool :=
  match b with
  | Bound Js.NumNaN => true
  | _ => false
  end.

(** [Number(v)] of a present query value: arrays and objects convert
    through their string form. *)
Definition toNumber (v : qval) : Js.numeric := Js.stringToNumber (qToString v).

(** [v != null ? Number(v) : undefined] *)
Definition readBound (v : option qval) : priceBound :=
  match v with
  | Some q => Bound (toNumber q)
  | None => Undefined
  end.

(** The values stored under the keys of the filter object. *)
Inductive fval : Type :=
| FBool (b : bool)
| FStr (s : string)
| FRange (ops : gmap string priceBound)
| FIn (tags : list string)
| FSearch (s : string).

(** The tag list of lines 49-52: split on commas, trim and lower-case each
    piece, keep the non-empty ones ([filter(Boolean)]). *)
Definition tagList (s : string) : list string :=
  List.filter (fun t => negb (String.eqb t ""))
    (map (fun t => Js.toLowerCase (Js.trim t)) (Js.split "," s)).

Definition buildProductFilter (query : gmap string qval) : gmap string fval :=
  let filter : gmap string fval := {[ "isActive" := FBool true ]} in
  let filter :=
    if truthy (query !! "category")
    then <[ "category" := FStr (Js.toLowerCase (toString (query !! "category"))) ]> filter
    else filter in
  let minPrice := readBound (query !! "minPrice") in
  let maxPrice := readBound (query !! "maxPrice") in
  let filter :=
    if negb (boundIsNaN minPrice) || negb (boundIsNaN maxPrice) then
      let price : gmap string priceBound := ∅ in
      let price :=
        if negb (boundIsNaN minPrice) then <[ "$gte" := minPrice ]> price else price in
      let price :=
        if negb (boundIsNaN maxPrice) then <[ "$lte" := maxPrice ]> price else price in
      <[ "price" := FRange price ]> filter
    else filter in
  let filter :=
    if truthy (query !! "tags") then
      let tags := tagList (toString (query !! "tags")) in
      if (0 <? length tags)%nat then <[ "tags" := FIn tags ]> filter else filter
    else filter in
  let filter :=
    if truthy (query !! "search")
    then <[ "$text" := FSearch (toString (query !! "search")) ]> filter
    else filter in
  filter.

(** ** Sort resolver *)

Inductive direction : Type :=
| Ascending    (* 1 *)
| Descending.  (* -1 *)

(** A sort object with its single key. *)
Record sortSpec : Type := SortSpec {
  sortField : string;
  sortDirection : direction
}.

Definition defaultSort : sortSpec := SortSpec "createdAt" Descending.

(** The whitelist of sortable fields, a [Set]. *)
Definition allowed : gset string := {[ "price"; "createdAt"; "rating"; "name" ]}.

(** [allowed.has(f)] *)
Definition allowedHas (f : string) : bool := bool_decide (f ∈ allowed).

Definition parseSort (sortParam : option qval) : sortSpec :=
  if negb (truthy sortParam) then defaultSort
  else
    let field := Js.trim (toString sortParam) in
    let direction := if Js.startsWithDash field then Descending else Ascending in
    let cleanField := Js.stripLeadingDash field in
    if negb (allowedHas cleanField) then defaultSort
    else SortSpec cleanField direction.

(** ** Bodies, errors and the storage collaborator *)

(** A JSON value: a request body, a stored document, a response payload.
    The fields of an object have distinct names. *)
Inductive json : Type :=
| JNull
| JBool (b : bool)
| JNumber (n : Js.numeric)
| JString (s : string)
| JArray (items : list json)
| JObject (fields : list (string * json)).

(** The body [{ message: m }]. *)
Definition message (m : string) : json := JObject [("message", JString m)].

(** Reading the property [name] of a list of fields. *)
Fixpoint lookupField (name : string) (fields : list (string * json)) : option json :=
  match fields with
  | [] => None
  | (k, v) :: rest => if String.eqb k name then Some v else lookupField name rest
  end.

(** [body.name] for one of the write fields: only an object has them. *)
Definition field (name : string) (body : json) : option json :=
  match body with
  | JObject fields => lookupField name fields
  | _ => None
  end.

(** [!v] for a property read ([None] is [undefined]). *)
Definition falsy (v : option json) : bool :=
  match v with
  | None | Some JNull | Some (JBool false) | Some (JString EmptyString) => true
  | Some (JNumber Js.NumNaN) | Some (JNumber (Js.NumDecimal _ 0%N _)) => true
  | Some _ => false
  end.

(** [v == null]: [undefined] or [null]. *)
Definition nullish (v : option json) : bool :=
  match v with
  | None | Some JNull => true
  | Some _ => false
  end.

(** [req.body || {}] *)
Definition bodyOrEmpty (body : option json) : json :=
  if falsy body then JObject [] else default (JObject []) body.

(** What the handlers read of a thrown error. [code] is its numeric code,
    when it has one. *)
Record jsError : Type := JsError {
  code : option Z;
  statusCode : option Z;
  errMessage : string
}.

(** The outcome of an awaited call. *)
Inductive outcome (A : Type) : Type :=
| Resolved (a : A)
| Rejected (err : jsError).
Arguments Resolved {A} a.
Arguments Rejected {A} err.

(** The answers of the collaborators the controller calls: the identifier
    check and the model's queries. A query that finds nothing resolves to
    [None] ([null]). *)
Record Mongoose : Type := {
  isValid : string -> bool;
  create : list (string * option json) -> outcome json;
  findById : string -> outcome (option json);
  findByIdAndUpdate : string -> json -> outcome (option json);
  findByIdAndDelete : string -> outcome (option json)
}.

Record request : Type := Request {
  method : string;
  originalUrl : string;
  id : string;              (* req.params.id *)
  body : option json        (* req.body *)
}.

(** What a handler does with the response object. *)
Inductive emission : Type :=
| Json (status : Z) (payload : json)   (* res.status(status).json(payload) *)
| Send (status : Z)                    (* res.status(status).send() *)
| Next (err : jsError).                (* next(err) *)

(** ** Response cache *)

Record entry : Type := Entry {
  payload : json;
  expiresAt : Z
}.

(** The module-level [cacheStore]. *)
Abbreviation cacheStore := (gmap string entry).

Definition buildCacheKey (req : request) : string :=
  method req +:+ ":" +:+ originalUrl req.

(** What one invocation of the middleware does. *)
Inductive mwResult : Type :=
| Bypass                           (* next(), [res.json] untouched *)
| Hit (served : json)              (* return res.json(cached.payload) *)
| Miss (key : string) (now : Z).   (* [res.json] replaced, then next() *)

(** The middleware for a route with the given TTL, invoked at time [now]
    ([Date.now()]) on the current store. *)
Definition cacheMiddleware (ttlSeconds : Z) (req : request) (now : Z)
    (store : cacheStore) : mwResult :=
  if negb (String.eqb (method req) "GET") then Bypass
  else
    let key := buildCacheKey req in
    match store !! key with
    | Some cached =>
        if now <? expiresAt cached then Hit (payload cached) else Miss key now
    | None => Miss key now
    end.

(** The replacement of [res.json] installed on a miss, as far as the store
    goes: it holds [key] and [now] of the miss and runs on the store as it
    is when the handler responds. *)
Definition resJson (ttlSeconds : Z) (key : string) (now : Z) (body : json)
    (store : cacheStore) : cacheStore :=
  <[ key := {| payload := body; expiresAt := now + ttlSeconds * 1000 |} ]> store.

Definition invalidateCache (store : cacheStore) : cacheStore := ∅.

(** ** The application's error handler and the response that leaves *)

Record response : Type := Response {
  status : Z;
  sent : option json
}.

(** [err.statusCode || 500] and [err.message || 'Internal Server Error'],
    for an error that reaches the handler before any header is sent (the
    handlers call [next(err)] before they send anything, so the
    [res.headersSent] branch is not taken) and whose status, when it has
    one, is one that the response accepts (100 to 999). *)
Definition errorHandler (err : jsError) : emission :=
  Json
    (match statusCode err with
     | Some c => if c =? 0 then 500 else c
     | None => 500
     end)
    (message (if String.eqb (errMessage err) "" then "Internal Server Error"
              else errMessage err)).

(** The call of [res.json] an emission ends in, if any: a forwarded error
    reaches the error handler, which answers through the same [res]. *)
Definition jsonCall (e : emission) : option (Z * json) :=
  match e with
  | Json st b => Some (st, b)
  | Send _ => None
  | Next err =>
      match errorHandler err with
      | Json st b => Some (st, b)
      | _ => None
      end
  end.

(** The response that leaves for an emission. *)
Definition respond (e : emission) : response :=
  match jsonCall e with
  | Some (st, b) => {| status := st; sent := Some b |}
  | None => {| status := match e with Send st => st | _ => 200 end; sent := None |}
  end.

(** The effect of an emission on the store: it goes out through the
    response object the middleware left, and after a miss [res.json] is the
    capturing closure. *)
Definition capture (ttlSeconds : Z) (r : mwResult) (e : emission)
    (store : cacheStore) : cacheStore :=
  match r, jsonCall e with
  | Miss key now, Some (_, b) => resJson ttlSeconds key now b store
  | _, _ => store
  end.

(** A hit answers with the stored payload and the default status. *)
Definition serveHit (served : json) : response :=
  {| status := 200; sent := Some served |}.

(** Whether the middleware passes control to the wrapped handler. *)
Definition callsNext (r : mwResult) : bool :=
  match r with
  | Hit _ => false
  | _ => true
  end.

(** ** Detail and write handlers *)

Definition getProductById (mg : Mongoose) (req : request) : emission :=
  if negb (isValid mg (id req)) then Json 400 (message "Invalid product id")
  else
    match findById mg (id req) with
    | Resolved None => Json 404 (message "Product not found")
    | Resolved (Some product) => Json 200 product
    | Rejected err => Next err
    end.

(** [err.code === 11000] *)
Definition isDuplicateKey (err : jsError) : bool :=
  match code err with
  | Some c => c =? 11000
  | None => false
  end.

(** The object handed to [Product.create]: the ten fields read off the
    body, [None] where the body has none. *)
Definition createPayload (b : json) : list (string * option json) :=
  [("name", field "name" b); ("slug", field "slug" b);
   ("price", field "price" b); ("category", field "category" b);
   ("shortDescription", field "shortDescription" b);
   ("description", field "description" b);
   ("imageUrl", field "imageUrl" b);
   ("thumbnailUrl", field "thumbnailUrl" b);
   ("tags", field "tags" b);
   ("stock", field "stock" b)].

Definition createProduct (mg : Mongoose) (req : request) (store : cacheStore)
    : emission * cacheStore :=
  let b := bodyOrEmpty (body req) in
  let name := field "name" b in
  let slug := field "slug" b in
  let price := field "price" b in
  let category := field "category" b in
  if falsy name || falsy slug || nullish price || falsy category then
    (Json 400 (message "name, slug, price and category are required"), store)
  else
    let payload := createPayload b in
    match create mg payload with
    | Resolved product => (Json 201 product, invalidateCache store)
    | Rejected err =>
        if isDuplicateKey err then (Json 409 (message "Slug must be unique"), store)
        else (Next err, store)
    end.

Definition updateProduct (mg : Mongoose) (req : request) (store : cacheStore)
    : emission * cacheStore :=
  if negb (isValid mg (id req)) then (Json 400 (message "Invalid product id"), store)
  else
    let updates := bodyOrEmpty (body req) in
    match findByIdAndUpdate mg (id req) updates with
    | Resolved None => (Json 404 (message "Product not found"), store)
    | Resolved (Some product) => (Json 200 product, invalidateCache store)
    | Rejected err =>
        if isDuplicateKey err then (Json 409 (message "Slug must be unique"), store)
        else (Next err, store)
    end.

Definition deleteProduct (mg : Mongoose) (req : request) (store : cacheStore)
    : emission * cacheStore :=
  if negb (isValid mg (id req)) then (Json 400 (message "Invalid product id"), store)
  else
    match findByIdAndDelete mg (id req) with
    | Resolved None => (Json 404 (message "Product not found"), store)
    | Resolved (Some _) => (Send 204, invalidateCache store)
    | Rejected err => (Next err, store)
    end.

(** ** Routes *)

(** The write routes of the router: none of them goes through the cache
    middleware. *)
Inductive writeRoute : Type :=
| Post      (* router.post('/', createProduct) *)
| Put       (* router.put('/:id', updateProduct) *)
| Delete.   (* router.delete('/:id', deleteProduct) *)

Definition dispatchWrite (w : writeRoute)
    : Mongoose -> request -> cacheStore -> emission * cacheStore :=
  match w with
  | Post => createProduct
  | Put => updateProduct
  | Delete => deleteProduct
  end.

Definition runWrite (w : writeRoute) (mg : Mongoose) (req : request)
    (store : cacheStore) : response * cacheStore :=
  let '(e, store') := dispatchWrite w mg req store in
  (respond e, store').

(** TTL of the detail route: [cacheMiddleware(60)]. *)
Definition DETAIL_TTL : Z := 60.

(** [router.get('/:id', cacheMiddleware(60), getProductById)] for a request
    that arrives at time [now]; the handler answers on the store as it is by
    then, [later] (equal to [store] when nothing ran in between). *)
Definition getDetail (mg : Mongoose) (req : request) (now : Z)
    (store later : cacheStore) : response * cacheStore :=
  match cacheMiddleware DETAIL_TTL req now store with
  | Hit served => (serveHit served, store)
  | r =>
      let e := getProductById mg req in
      (respond e, capture DETAIL_TTL r e later)
  end.

(** A collaborator for the examples: an identifier is valid when it is 24
    hexadecimal digits, the collection is empty and every slug is taken. *)
Definition isHex24 (s : string) : bool :=
  match Js.readRun 16 s 0%N 0%nat with
  | (_, n, EmptyString) => (n =? 24)%nat
  | _ => false
  end.

Definition duplicateKey : jsError :=
  {| code := Some 11000; statusCode := None; errMessage := "E11000 duplicate key error" |}.

Definition emptyCatalog : Mongoose :=
  {| isValid := isHex24;
     create := fun _ => Rejected duplicateKey;
     findById := fun _ => Resolved None;
     findByIdAndUpdate := fun _ _ => Resolved None;
     findByIdAndDelete := fun _ => Resolved None |}.

(** A collaborator that accepts every write and finds every document. *)
Definition acceptingCatalog : Mongoose :=
  {| isValid := isHex24;
     create := fun _ => Resolved (JObject [("slug", JString "lamp")]);
     findById := fun _ => Resolved (Some (JObject [("slug", JString "lamp")]));
     findByIdAndUpdate := fun _ _ => Resolved (Some (JObject [("slug", JString "lamp")]));
     findByIdAndDelete := fun _ => Resolved (Some (JObject [("slug", JString "lamp")])) |}.

(** ** Reference notions used to state the properties *)

(** A string of decimal digits and its value, digit by digit with the
    weight of each position. *)
Fixpoint allDigits (s : string) : bool :=
  match s with
  | String c s' =>
      match Js.digitValue c with
      | Some _ => allDigits s'
      | None => false
      end
  | EmptyString => true
  end.

Fixpoint decimalValue (s : string) : Z :=
  match s with
  | String c s' =>
      match Js.digitValue c with Some d => d | None => 0 end
      * 10 ^ Z.of_nat (String.length s') + decimalValue s'
  | EmptyString => 0
  end.

(** An optional sign, and the value of a signed run of digits. *)
Definition isSign (sign : string) : Prop := sign = "" ∨ sign = "+" ∨ sign = "-".

Definition signedValue (sign ds : string) : Z :=
  if String.eqb sign "-" then - decimalValue ds else decimalValue ds.

(** The string does not start with a decimal digit. *)
Definition noLeadingDigit (s : string) : Prop :=
  match s with
  | String c _ => Js.digitValue c = None
  | EmptyString => True
  end.

(** The step of [buildProductFilter] that adds the price predicate, on its
    own. *)
Definition priceStep (minPrice maxPrice : priceBound) (filter : gmap string fval)
    : gmap string fval :=
  if negb (boundIsNaN minPrice) || negb (boundIsNaN maxPrice) then
    let price : gmap string priceBound := ∅ in
    let price :=
      if negb (boundIsNaN minPrice) then <[ "$gte" := minPrice ]> price else price in
    let price :=
      if negb (boundIsNaN maxPrice) then <[ "$lte" := maxPrice ]> price else price in
    <[ "price" := FRange price ]> filter
  else filter.

(** Notions on strings used to describe the tag list. *)

Fixpoint contains (c : ascii) (s : string) : bool :=
  match s with
  | String x s' => Ascii.eqb x c || contains c s'
  | EmptyString => false
  end.

Fixpoint allWhiteSpace (s : string) : bool :=
  match s with
  | String x s' => Js.isWhiteSpace x && allWhiteSpace s'
  | EmptyString => true
  end.

Definition firstChar (s : string) : option ascii :=
  match s with
  | String x _ => Some x
  | EmptyString => None
  end.

Fixpoint lastChar (s : string) : option ascii :=
  match s with
  | String x EmptyString => Some x
  | String _ s' => lastChar s'
  | EmptyString => None
  end.

(** The string starts or ends with white space. *)
Definition outerSpace (s : string) : bool :=
  match firstChar s, lastChar s with
  | Some a, Some b => Js.isWhiteSpace a || Js.isWhiteSpace b
  | _, _ => false
  end.

(** An upper-case letter A-Z. *)
Definition isUpper (c : ascii) : bool :=
  let n := N_of_ascii c in ((65 <=? n) && (n <=? 90))%N.

Fixpoint hasUpper (s : string) : bool :=
  match s with
  | String x s' => isUpper x || hasUpper s'
  | EmptyString => false
  end.

(** The first, respectively last, character is no white space. *)
Definition headPlain (t : string) : Prop :=
  match firstChar t with
  | Some a => Js.isWhiteSpace a = false
  | None => True
  end.

Definition lastPlain (t : string) : Prop :=
  match lastChar t with
  | Some a => Js.isWhiteSpace a = false
  | None => True
  end.

(** The handler itself answers with a success status (201, 200 or 204);
    a forwarded error is no success whatever the error handler answers. *)
Definition succeeded (e : emission) : bool :=
  match e with
  | Json st _ | Send st => (200 <=? st) && (st <? 300)
  | Next _ => false
  end.

(** The required fields of a create body are all there. *)
Definition requiredPresent (b : option json) : bool :=
  let o := bodyOrEmpty b in
  negb (falsy (field "name" o)) && negb (falsy (field "slug" o))
  && negb (nullish (field "price" o)) && negb (falsy (field "category" o)).

(** ** List handler *)

(** The projection of list views: the fields set to 1. *)
Definition projection : list string :=
  ["name"; "slug"; "shortDescription"; "price"; "category"; "rating";
   "numReviews"; "thumbnailUrl"; "stock"; "isActive"; "createdAt"].

(** The answers of the model to the two queries of the list handler:
    [Product.find(filter, projection).sort(sort).skip(skip).limit(limit)]
    and [Product.countDocuments(filter)]. When both reject, [Promise.all]
    rejects with the one that settles first, which [findSettlesFirst]
    tells. *)
Record Listing : Type := {
  find : gmap string fval -> list string -> sortSpec -> Js.number -> Js.number
         -> outcome (list json);
  countDocuments : gmap string fval -> outcome Z;
  findSettlesFirst : bool
}.

(** [Math.ceil(a / b)] for integers, [b] not 0. *)
Definition ceilDiv (a b : Z) : Z := - ((- a) / b).

(** [Math.ceil(total / limit) || 1] for a total that is an integer of
    magnitude below 2^53, as a count of documents is. A limit of 0 makes
    the quotient an infinity, or [NaN] for a total of 0; an infinite limit
    makes it a zero; a zero and [NaN] are falsy. For such a total the
    rounding of the quotient to a double never reaches an integer that the
    exact quotient is not, so the rounded-up quotient is the exact one. *)
Definition totalPagesOf (total : Z) (limit : Js.number) : Js.number :=
  match limit with
  | Js.Num l =>
      if l =? 0 then
        if total =? 0 then Js.Num 1 else Js.Infinity (total <? 0)
      else
        let pages := ceilDiv total l in
        if pages =? 0 then Js.Num 1 else Js.ofInteger pages
  | Js.NaN => Js.Num 1
  | Js.Infinity _ => Js.Num 1
  end.

(** An integer, and a number of the resolver, as they stand in a body. *)
Definition jsonOfZ (z : Z) : json := JNumber (Js.NumDecimal (z <? 0) (Z.abs_N z) 0).

Definition jsonOfNumber (n : Js.number) : json :=
  match n with
  | Js.Num z => jsonOfZ z
  | Js.NaN => JNumber Js.NumNaN
  | Js.Infinity negative => JNumber (Js.NumInfinity negative)
  end.

(** [{ data: items, pagination: { page, limit, total, totalPages } }] *)
Definition envelope (items : list json) (pg : pagination) (total : Z) : json :=
  JObject
    [("data", JArray items);
     ("pagination",
      JObject [("page", jsonOfNumber (page pg));
               ("limit", jsonOfNumber (limit pg));
               ("total", jsonOfZ total);
               ("totalPages", jsonOfNumber (totalPagesOf total (limit pg)))])].

Definition getProducts (lst : Listing) (query : gmap string qval) : emission :=
  let pg := parsePagination query in
  let filter := buildProductFilter query in
  let sort := parseSort (query !! "sort") in
  match find lst filter projection sort (skip pg) (limit pg),
        countDocuments lst filter with
  | Resolved items, Resolved total => Json 200 (envelope items pg total)
  | Rejected err, Resolved _ => Next err
  | Resolved _, Rejected err => Next err
  | Rejected err, Rejected err' =>
      Next (if findSettlesFirst lst then err else err')
  end.

(** TTL of the list route: [cacheMiddleware(30)]. *)
Definition LIST_TTL : Z := 30.

(** [router.get('/', cacheMiddleware(30), getProducts)] for a request with
    the parsed query [query] that arrives at time [now]; the handler answers
    on the store as it is by then, [later]. *)
Definition getList (lst : Listing) (req : request) (query : gmap string qval)
    (now : Z) (store later : cacheStore) : response * cacheStore :=
  match cacheMiddleware LIST_TTL req now store with
  | Hit served => (serveHit served, store)
  | r =>
      let e := getProducts lst query in
      (respond e, capture LIST_TTL r e later)
  end.

(** The names of the fields a create reads off the body. *)
Definition createFields : list string :=
  ["name"; "slug"; "price"; "category"; "shortDescription"; "description";
   "imageUrl"; "thumbnailUrl"; "tags"; "stock"].

(** Collaborators for the examples: a page of one document out of 41, and
    the same one refusing any limit above 100. *)
Definition onePage : Listing :=
  {| find := fun _ _ _ _ _ => Resolved [JObject [("slug", JString "lamp")]];
     countDocuments := fun _ => Resolved 41;
     findSettlesFirst := true |}.

Definition boundedPage : Listing :=
  {| find := fun _ _ _ _ l =>
       if Js.gt l (Js.Num 100) then Rejected duplicateKey
       else Resolved [JObject [("slug", JString "lamp")]];
     countDocuments := fun _ => Resolved 41;
     findSettlesFirst := true |}.


(** A number that is not [NaN] and not below zero. *)
Definition nonNegative (n : Js.number) : Prop :=
  match n with
  | Js.Num z => 0 ≤ z
  | Js.Infinity negative => negative = false
  | Js.NaN => False
  end.

(** A string of [n] times the same character. *)
Fixpoint repeatChar (c : ascii) (n : nat) : string :=
  match n with
  | O => EmptyString
  | S n' => String c (repeatChar c n')
  end.

(** A binary64 value of the standard library's IEEE 754 reference, as a
    number, when its value is an integer. *)
Definition ofSpec (f : spec_float) : option Js.number :=
  match f with
  | S754_zero _ => Some (Js.Num 0)
  | S754_infinity negative => Some (Js.Infinity negative)
  | S754_nan => Some Js.NaN
  | S754_finite negative m e =>
      if 0 <=? e then Some (Js.Num ((if negative then -1 else 1) * Z.pos m * 2 ^ e))
      else if Z.pos m mod 2 ^ (- e) =? 0
           then Some (Js.Num ((if negative then -1 else 1) * (Z.pos m / 2 ^ (- e))))
           else None
  end.

(** The double of an integer in that reference. *)
Definition specOfInteger (z : Z) : spec_float := binary_normalize 53 1024 z 0 false.

(** The storage performed the write of the route: the request passed the
    handler's checks and the model's call resolved, with a document where
    the call looks one up. *)
Definition performed (w : writeRoute) (mg : Mongoose) (req : request) : bool :=
  match w with
  | Post =>
      requiredPresent (body req)
      && match create mg (createPayload (bodyOrEmpty (body req))) with
         | Resolved _ => true
         | Rejected _ => false
         end
  | Put =>
      isValid mg (id req)
      && match findByIdAndUpdate mg (id req) (bodyOrEmpty (body req)) with
         | Resolved (Some _) => true
         | _ => false
         end
  | Delete =>
      isValid mg (id req)
      && match findByIdAndDelete mg (id req) with
         | Resolved (Some _) => true
         | _ => false
         end
  end.

(** * Properties *)

(** ** Numbers *)

(** The rounding agrees with the standard library's IEEE 754 reference
    (binary64: 53 bits of precision, exponents up to 1024), also on ties,
    at the overflow threshold and for the operations of the resolver. *)
Example ofInteger_agrees_with_reference :
  map (λ z, ofSpec (specOfInteger z))
    [0; 1; -1; 100; 9007199254740991; 9007199254740992; 9007199254740993;
     9007199254740994; 9007199254740995; -9007199254740993;
     180143985094819820; 10 ^ 25 + 7; 2 ^ 1024 - 2 ^ 970 - 1;
     2 ^ 1024 - 2 ^ 970; - 10 ^ 400]
  = map (λ z, Some (Js.ofInteger z))
      [0; 1; -1; 100; 9007199254740991; 9007199254740992; 9007199254740993;
       9007199254740994; 9007199254740995; -9007199254740993;
       180143985094819820; 10 ^ 25 + 7; 2 ^ 1024 - 2 ^ 970 - 1;
       2 ^ 1024 - 2 ^ 970; - 10 ^ 400]
  ∧ ofSpec (SFsub 53 1024 (specOfInteger 9007199254740993) (specOfInteger 1))
    = Some (Js.sub (Js.ofInteger 9007199254740993) (Js.Num 1))
  ∧ ofSpec (SFmul 53 1024 (specOfInteger 9007199254740991) (specOfInteger 20))
    = Some (Js.mul (Js.Num 9007199254740991) (Js.Num 20))
  ∧ Js.ofInteger 9007199254740993 = Js.Num 9007199254740992
  ∧ Js.ofInteger (10 ^ 400) = Js.Infinity false.
Proof. vm_compute. done. Qed.

(** An integer of magnitude below 2^53 is its own double. *)
Lemma ofInteger_small (z : Z) : Z.abs z < 2 ^ 53 → Js.ofInteger z = Js.Num z.
Proof.
  change (2 ^ 53) with 9007199254740992. intros Hz.
  unfold Js.ofInteger, Js.roundMagnitude. cbv zeta.
  destruct (Z.ltb_spec (Z.abs z) 9007199254740992) as [_|?]; [|lia].
  assert (9007199254740992 < 2 ^ 1024) as Hbig by (vm_compute; reflexivity).
  destruct (Z.leb_spec (2 ^ 1024) (Z.abs z)) as [?|_]; [lia|].
  f_equal. lia.
Qed.

(** Rounding keeps an integer of 2^53 or more at 2^53 or more. *)
Lemma roundMagnitude_large (n : Z) :
  2 ^ 53 ≤ n → 2 ^ 53 ≤ Js.roundMagnitude n.
Proof.
  intros Hn. unfold Js.roundMagnitude. cbv zeta.
  change (2 ^ 53) with 9007199254740992 in *.
  destruct (Z.ltb_spec n 9007199254740992) as [?|_]; [lia|].
  assert (53 ≤ Z.log2 n) as Hlog
    by (apply Z.log2_le_pow2; [lia | by change (2 ^ 53) with 9007199254740992]).
  set (sh := Z.log2 n - 52). assert (1 ≤ sh) as Hsh by (subst sh; lia).
  pose proof (Z.log2_spec n ltac:(lia)) as [Hlow _].
  replace (Z.log2 n) with (52 + sh) in Hlow by (subst sh; lia).
  rewrite Z.pow_add_r in Hlow by lia.
  assert (2 ≤ 2 ^ sh) as Hpow
    by (change 2 with (2 ^ 1) at 1; apply Z.pow_le_mono_r; lia).
  assert (2 ^ 52 ≤ Z.shiftr n sh) as Hq.
  { rewrite Z.shiftr_div_pow2 by lia.
    apply Z.div_le_lower_bound; [lia|]. lia. }
  rewrite Z.shiftl_mul_pow2 by lia.
  change (2 ^ 52) with 4503599627370496 in *.
  destruct ((_ <? _) || _); nia.
Qed.

Lemma roundMagnitude_nonneg (n : Z) : 0 ≤ n → 0 ≤ Js.roundMagnitude n.
Proof.
  intros Hn. unfold Js.roundMagnitude. cbv zeta.
  destruct (Z.ltb_spec n 9007199254740992) as [?|Hge]; [lia|].
  assert (53 ≤ Z.log2 n) as Hlog
    by (apply Z.log2_le_pow2; [lia | by change (2 ^ 53) with 9007199254740992]).
  assert (0 ≤ Z.shiftr n (Z.log2 n - 52)) by (apply Z.shiftr_nonneg; lia).
  rewrite Z.shiftl_mul_pow2 by lia.
  assert (0 ≤ 2 ^ (Z.log2 n - 52)) by (apply Z.pow_nonneg; lia).
  destruct ((_ <? _) || _); nia.
Qed.

(** The double of an integer, by the size of the integer. *)
Lemma ofInteger_cases (z : Z) :
  (Z.abs z < 2 ^ 53 ∧ Js.ofInteger z = Js.Num z)
  ∨ (2 ^ 53 ≤ z
     ∧ (Js.ofInteger z = Js.Infinity false
        ∨ ∃ m, Js.ofInteger z = Js.Num m ∧ 2 ^ 53 ≤ m))
  ∨ (z ≤ - 2 ^ 53
     ∧ (Js.ofInteger z = Js.Infinity true
        ∨ ∃ m, Js.ofInteger z = Js.Num m ∧ m ≤ - 2 ^ 53)).
Proof.
  destruct (Z.lt_ge_cases (Z.abs z) (2 ^ 53)) as [Hsmall|Hlarge].
  { left. split; [done | by apply ofInteger_small]. }
  pose proof (roundMagnitude_large _ Hlarge) as Hm.
  change (2 ^ 53) with 9007199254740992 in *.
  unfold Js.ofInteger. cbv zeta.
  destruct (Z.leb_spec (2 ^ 1024) (Js.roundMagnitude (Z.abs z))) as [_|_].
  all: destruct (Z.ltb_spec z 0) as [Hneg|Hpos].
  - right; right. split; [lia | by left].
  - right; left. split; [lia | by left].
  - right; right. split; [lia|]. right. eexists. split; [reflexivity|].
    rewrite Z.sgn_neg by lia. lia.
  - right; left. split; [lia|]. right. eexists. split; [reflexivity|].
    rewrite Z.sgn_pos by lia. lia.
Qed.

Lemma ofInteger_not_NaN (z : Z) : Js.isNaN (Js.ofInteger z) = false.
Proof.
  destruct (ofInteger_cases z)
    as [[_ ->] | [[_ [-> | (m & -> & _)]] | [_ [-> | (m & -> & _)]]]]; done.
Qed.

(** Rounding does not change how an integer compares with an integer of
    magnitude below 2^53. *)
Lemma ofInteger_lt_safe (z b : Z) :
  Z.abs b < 2 ^ 53 →
  Js.lt (Js.ofInteger z) (Js.Num b) = (z <? b)
  ∧ Js.lt (Js.Num b) (Js.ofInteger z) = (b <? z).
Proof.
  intros Hb.
  destruct (ofInteger_cases z)
    as [[_ ->] | [[Hz [-> | (m & -> & Hm)]] | [Hz [-> | (m & -> & Hm)]]]];
    cbn [Js.lt negb]; [done|..].
  all: change (2 ^ 53) with 9007199254740992 in *.
  all: split; symmetry.
  all: first [ apply Z.ltb_lt; lia | apply Z.ltb_ge; lia
             | destruct (Z.ltb_spec m b), (Z.ltb_spec z b); first [done | lia]
             | destruct (Z.ltb_spec b m), (Z.ltb_spec b z); first [done | lia] ].
Qed.

Lemma ofInteger_nonNegative (z : Z) : 0 ≤ z → nonNegative (Js.ofInteger z).
Proof.
  intros Hz. unfold Js.ofInteger. cbv zeta.
  pose proof (roundMagnitude_nonneg (Z.abs z) ltac:(lia)) as Hm.
  destruct (Z.leb_spec (2 ^ 1024) (Js.roundMagnitude (Z.abs z))); cbn.
  - by destruct (Z.ltb_spec z 0); [lia|].
  - destruct (Z.sgn_spec z) as [[? ->] | [[? ->] | [? ->]]]; lia.
Qed.

(** ** Pagination resolver *)

Example parsePagination_plain :
  parsePagination {[ "page" := QStr "3"; "limit" := QStr "50" ]}
  = Pagination (Js.Num 3) (Js.Num 50) (Js.Num 100).
Proof. vm_compute. reflexivity. Qed.

Example parsePagination_empty :
  parsePagination ∅ = Pagination (Js.Num 1) (Js.Num 20) (Js.Num 0).
Proof. vm_compute. reflexivity. Qed.

Example parsePagination_prefix :
  parsePagination {[ "page" := QStr "5abc"; "limit" := QStr " 100.5" ]}
  = Pagination (Js.Num 5) (Js.Num 100) (Js.Num 400).
Proof. vm_compute. reflexivity. Qed.

Example parsePagination_out_of_range :
  parsePagination {[ "page" := QStr "-2"; "limit" := QStr "101" ]}
  = Pagination (Js.Num 1) (Js.Num 20) (Js.Num 0).
Proof. vm_compute. reflexivity. Qed.

(** Beyond 2^53 the page and the offset are the doubles the arithmetic
    gives, and a page of 400 digits is an infinity. *)
Example parsePagination_beyond_safe :
  parsePagination {[ "page" := QStr "9007199254740993"; "limit" := QStr "20" ]}
  = Pagination (Js.Num 9007199254740992) (Js.Num 20) (Js.Num 180143985094819808)
  ∧ parsePagination {[ "page" := QStr (repeatChar "9" 400) ]}
    = Pagination (Js.Infinity false) (Js.Num 20) (Js.Infinity false)
  ∧ parsePagination {[ "page" := QStr ("-" +:+ repeatChar "9" 400);
                       "limit" := QStr (repeatChar "9" 400) ]}
    = Pagination (Js.Num 1) (Js.Num 20) (Js.Num 0).
Proof. vm_compute. done. Qed.

(** A decimal digit is neither white space nor a sign. *)
Lemma digit_is_plain c d :
  Js.digitValue c = Some d →
  Js.isWhiteSpace c = false ∧ Ascii.eqb c "-" = false ∧ Ascii.eqb c "+" = false
  ∧ 0 ≤ d ≤ 9.
Proof.
  destruct c as [[] [] [] [] [] [] [] []]; vm_compute; intros H;
    try discriminate H; injection H as <-; repeat split; discriminate.
Qed.

Lemma append_nil_l (s : string) : "" +:+ s = s.
Proof. reflexivity. Qed.

Lemma append_cons (c : ascii) (s t : string) : String c s +:+ t = String c (s +:+ t).
Proof. reflexivity. Qed.

(** Reading a run of digits that ends the string or is followed by
    something else than a digit. *)
Lemma readDigits_run ds rest acc seen :
  allDigits ds = true → noLeadingDigit rest →
  Js.readDigits (ds +:+ rest) acc seen
  = match ds with
    | EmptyString => if seen then Some acc else None
    | _ => Some (acc * 10 ^ Z.of_nat (String.length ds) + decimalValue ds)
    end.
Proof.
  intros Hds Hrest. revert acc seen Hds.
  induction ds as [|c ds IH]; intros acc seen Hds.
  - destruct rest as [|c r]; [reflexivity|].
    rewrite append_nil_l. cbn [Js.readDigits]. unfold noLeadingDigit in Hrest.
    by rewrite Hrest.
  - cbn in Hds. rewrite append_cons. cbn [Js.readDigits decimalValue].
    destruct (Js.digitValue c) as [d|] eqn:Hc; [|discriminate].
    rewrite IH by done.
    destruct ds as [|c' ds'].
    + cbn. f_equal. lia.
    + f_equal. set (n := String.length (String c' ds')).
      replace (String.length (String c (String c' ds'))) with (S n) by reflexivity.
      rewrite Nat2Z.inj_succ, Z.pow_succ_r by lia. ring.
Qed.





Lemma parseIntStr_NaN_iff s :
  Js.parseIntStr s = Js.NaN ↔ Js.mathInt s = None.
Proof.
  unfold Js.parseIntStr. destruct (Js.mathInt s) as [v|]; [|done].
  pose proof (ofInteger_not_NaN v). by destruct (Js.ofInteger v).
Qed.

(** The integer read off a digit run followed by other characters is the
    value of the run. *)
Lemma mathInt_prefix ds rest :
  ds ≠ EmptyString → allDigits ds = true → noLeadingDigit rest →
  Js.mathInt (ds +:+ rest) = Some (decimalValue ds).
Proof.
  intros Hne Hds Hrest. destruct ds as [|c ds]; [done|].
  pose proof Hds as Hds'. cbn in Hds.
  destruct (Js.digitValue c) as [d|] eqn:Hc; [|discriminate].
  destruct (digit_is_plain _ _ Hc) as (Hws & Hminus & Hplus & _).
  unfold Js.mathInt. rewrite append_cons. cbn [Js.trimStart].
  rewrite Hws, Hminus, Hplus. rewrite <- append_cons.
  by rewrite readDigits_run.
Qed.

(** Leading white space does not change what is read. *)
Lemma mathInt_lead lead s :
  allWhiteSpace lead = true → Js.mathInt (lead +:+ s) = Js.mathInt s.
Proof.
  intros Hlead. unfold Js.mathInt.
  replace (Js.trimStart (lead +:+ s)) with (Js.trimStart s); [done|].
  induction lead as [|c lead IH]; [done|].
  cbn in Hlead. apply andb_true_iff in Hlead as [Hc Hlead].
  rewrite append_cons. cbn [Js.trimStart]. rewrite Hc. auto.
Qed.

Lemma mathInt_sign (negative : bool) s :
  Js.mathInt (String (if negative then "-" else "+")%char s)
  = match Js.readDigits s 0 false with
    | Some m => Some (if negative then - m else m)
    | None => None
    end.
Proof. by destruct negative. Qed.

(** The integer read off optional white space, an optional sign and a digit
    run, followed by characters that do not continue the run. *)
Lemma mathInt_signed_prefix lead sign ds rest :
  allWhiteSpace lead = true → isSign sign →
  ds ≠ EmptyString → allDigits ds = true → noLeadingDigit rest →
  Js.mathInt (lead +:+ sign +:+ ds +:+ rest) = Some (signedValue sign ds).
Proof.
  intros Hlead Hsign Hne Hds Hrest. rewrite mathInt_lead by done.
  destruct Hsign as [-> | [-> | ->]]; unfold signedValue; cbn [String.eqb Ascii.eqb].
  - rewrite append_nil_l. by apply mathInt_prefix.
  - rewrite append_cons, append_nil_l, (mathInt_sign false).
    rewrite readDigits_run by done. destruct ds; [done|]. f_equal.
  - rewrite append_cons, append_nil_l, (mathInt_sign true).
    rewrite readDigits_run by done. destruct ds; [done|]. f_equal.
Qed.


(** The resolved page: 1 unless an integer of at least 1 is read, and then
    the double of that integer. *)
Lemma resolved_page query :
  page (parsePagination query)
  = match Js.mathInt (toString (query !! "page")) with
    | Some v => if v <? 1 then Js.Num 1 else Js.ofInteger v
    | None => Js.Num 1
    end.
Proof.
  unfold parsePagination, parseInt, Js.parseIntStr. cbn [page].
  destruct (Js.mathInt (toString (query !! "page"))) as [v|]; [|reflexivity].
  rewrite ofInteger_not_NaN. cbn [orb].
  destruct (ofInteger_lt_safe v 1) as [-> _]; [by vm_compute|].
  by destruct (v <? 1).
Qed.

(** The resolved limit: 20 unless an integer from 1 to 100 is read. *)
Lemma resolved_limit query :
  limit (parsePagination query)
  = match Js.mathInt (toString (query !! "limit")) with
    | Some v => if (v <? 1) || (100 <? v) then Js.Num 20 else Js.Num v
    | None => Js.Num 20
    end.
Proof.
  unfold parsePagination, parseInt, Js.parseIntStr. cbn [limit].
  destruct (Js.mathInt (toString (query !! "limit"))) as [v|]; [|reflexivity].
  rewrite ofInteger_not_NaN. cbn [orb]. unfold Js.gt, MAX_LIMIT.
  destruct (ofInteger_lt_safe v 1) as [-> _]; [by vm_compute|].
  destruct (ofInteger_lt_safe v 100) as [_ ->]; [by vm_compute|].
  destruct (Z.ltb_spec v 1), (Z.ltb_spec 100 v); cbn [orb]; try done.
  rewrite ofInteger_small; [done|]. change (2 ^ 53) with 9007199254740992. lia.
Qed.

Lemma resolved_skip query :
  skip (parsePagination query)
  = Js.mul (Js.sub (page (parsePagination query)) (Js.Num 1))
      (limit (parsePagination query)).
Proof. reflexivity. Qed.

(** The resolver always answers with numbers of this shape: a limit that is
    an integer from 1 to 100, a page that is an integer of at least 1 or
    the positive infinity, and an offset that is not below zero. *)
Lemma parsePagination_shape query :
  (∃ l, limit (parsePagination query) = Js.Num l ∧ 1 ≤ l ≤ 100)
  ∧ (page (parsePagination query) = Js.Infinity false
     ∨ ∃ p, page (parsePagination query) = Js.Num p ∧ 1 ≤ p)
  ∧ nonNegative (skip (parsePagination query)).
Proof.
  assert (∃ l, limit (parsePagination query) = Js.Num l ∧ 1 ≤ l ≤ 100)
    as (l & Hl & Hlr).
  { rewrite resolved_limit.
    destruct (Js.mathInt _) as [v|]; [|exists 20; split; [done | lia]].
    destruct (Z.ltb_spec v 1), (Z.ltb_spec 100 v); cbn [orb];
      first [exists 20; split; [done | lia] | exists v; split; [done | lia]]. }
  assert (page (parsePagination query) = Js.Infinity false
          ∨ ∃ p, page (parsePagination query) = Js.Num p ∧ 1 ≤ p) as Hp.
  { rewrite resolved_page.
    destruct (Js.mathInt _) as [v|]; [|right; exists 1; split; [done | lia]].
    destruct (Z.ltb_spec v 1); [right; exists 1; split; [done | lia]|].
    destruct (ofInteger_cases v)
      as [[_ ->] | [[_ [-> | (m & -> & Hm)]] | [Hv _]]].
    - right. eauto.
    - by left.
    - right. exists m. split; [done|].
      change (2 ^ 53) with 9007199254740992 in Hm. lia.
    - change (2 ^ 53) with 9007199254740992 in Hv. lia. }
  split; [eauto|]. split; [done|].
  rewrite resolved_skip, Hl. destruct Hp as [-> | (p & -> & Hp)].
  - cbn. destruct (Z.eqb_spec l 0); [lia|].
    by destruct (Z.ltb_spec l 0); [lia|].
  - cbn [Js.sub].
    pose proof (ofInteger_nonNegative (p - 1) ltac:(lia)) as Hsub.
    destruct (Js.ofInteger (p - 1)) as [|m|negative]; cbn in Hsub; [done|..].
    + cbn [Js.mul]. apply ofInteger_nonNegative. nia.
    + subst negative. cbn. destruct (Z.eqb_spec l 0); [lia|].
      by destruct (Z.ltb_spec l 0); [lia|].
Qed.



Example page_zero_resolves_to_default :
  page (parsePagination {[ "page" := QStr "0" ]}) = Js.Num 1
  ∧ page (parsePagination {[ "page" := QStr "abc" ]}) = Js.Num 1
  ∧ limit (parsePagination {[ "limit" := QStr "101" ]}) = Js.Num 20
  ∧ limit (parsePagination {[ "limit" := QStr "100" ]}) = Js.Num 100.
Proof. vm_compute. done. Qed.

(** C10. A page or limit input whose leading characters form a decimal
    integer (optional white space, an optional sign, digits), followed by
    characters that do not continue it (as in ["5abc"]), is read as that
    integer: [parseInt] gives the double of the prefix, which is the prefix
    itself below 2^53, and the resolver uses it where the range allows it
    (a page of at least 1, a limit from 1 to 100) and does not fall back to
    the default. *)
Theorem integer_prefix_accepted (query : gmap string qval)
    (lead sign ds rest : string) :
  allWhiteSpace lead = true → isSign sign →
  ds ≠ EmptyString → allDigits ds = true → noLeadingDigit rest →
  let input := QStr (lead +:+ sign +:+ ds +:+ rest) in
  let v := signedValue sign ds in
  parseInt (Some input) = Js.ofInteger v
  ∧ (Z.abs v < 2 ^ 53 → parseInt (Some input) = Js.Num v)
  ∧ (query !! "page" = Some input → 1 ≤ v →
     page (parsePagination query) = Js.ofInteger v
     ∧ (v < 2 ^ 53 → page (parsePagination query) = Js.Num v))
  ∧ (query !! "limit" = Some input → 1 ≤ v ≤ 100 →
     limit (parsePagination query) = Js.Num v).
Proof.
  intros Hlead Hsign Hne Hds Hrest input v.
  assert (Js.mathInt (toString (Some input)) = Some v) as Hm
    by (by apply mathInt_signed_prefix).
  assert (parseInt (Some input) = Js.ofInteger v) as Hp
    by (unfold parseInt, Js.parseIntStr; by rewrite Hm).
  split; [done|]. split; [intros Hv; by rewrite Hp, ofInteger_small|]. split.
  - intros Hq Hv. rewrite resolved_page, Hq, Hm.
    destruct (Z.ltb_spec v 1); [exfalso; lia|]. split; [done|].
    intros Hsafe. apply ofInteger_small. lia.
  - intros Hq Hv. rewrite resolved_limit, Hq, Hm.
    destruct (Z.ltb_spec v 1), (Z.ltb_spec 100 v); first [done | exfalso; lia].
Qed.

(** The input ["5abc"] as page resolves to page 5, and as limit to limit 5. *)
Lemma integer_prefix_accepted_5abc :
  let query : gmap string qval := {[ "page" := QStr "5abc"; "limit" := QStr "5abc" ]} in
  parseInt (Some (QStr "5abc")) = Js.Num 5
  ∧ page (parsePagination query) = Js.Num 5
  ∧ limit (parsePagination query) = Js.Num 5.
Proof.
  intros query.
  destruct (integer_prefix_accepted query "" "" "5" "abc") as (_ & H1 & H2 & H3).
  - reflexivity.
  - by left.
  - discriminate.
  - reflexivity.
  - reflexivity.
  - split; [apply H1; vm_compute; reflexivity|]. split.
    + apply H2; [reflexivity | vm_compute; discriminate | vm_compute; reflexivity].
    + apply H3; [reflexivity | vm_compute; split; discriminate].
Defined.

Example integer_prefix_samples :
  parseInt (Some (QStr " +12px")) = Js.Num 12
  ∧ parseInt (Some (QStr "-3.7")) = Js.Num (-3)
  ∧ parseInt (Some (QStr "1e3")) = Js.Num 1
  ∧ parseInt (Some (QStr "abc5")) = Js.NaN
  ∧ parseInt (Some (QStr "9007199254740993abc")) = Js.Num 9007199254740992
  ∧ parseInt (Some (QStr (repeatChar "9" 400 +:+ "abc"))) = Js.Infinity false.
Proof. vm_compute. done. Qed.

(** ** Filter builder *)

(** The keys the builder writes after the initial object are [category],
    [price], [tags] and [$text]: the lookup of any other key is the lookup
    in the initial object. *)
Lemma buildProductFilter_other_keys (query : gmap string qval) (k : string) :
  k ≠ "category" → k ≠ "price" → k ≠ "tags" → k ≠ "$text" →
  buildProductFilter query !! k = ({[ "isActive" := FBool true ]} : gmap string fval) !! k.
Proof.
  intros Hc Hp Ht Hs. unfold buildProductFilter.
  repeat case_match; rewrite ?lookup_insert_ne by done; reflexivity.
Qed.

(** The price key is decided by the price step alone. *)
Lemma buildProductFilter_price (query : gmap string qval) :
  buildProductFilter query !! "price"
  = priceStep (readBound (query !! "minPrice")) (readBound (query !! "maxPrice"))
      ∅ !! "price".
Proof.
  unfold buildProductFilter, priceStep.
  destruct (negb (boundIsNaN (readBound (query !! "minPrice"))));
    destruct (negb (boundIsNaN (readBound (query !! "maxPrice"))));
    cbn [orb]; repeat case_match;
    rewrite ?lookup_insert_eq, ?lookup_insert_ne, ?lookup_empty by done;
    reflexivity.
Qed.

(** The tags key is decided by the tags step alone. *)
Lemma buildProductFilter_tags (query : gmap string qval) :
  buildProductFilter query !! "tags"
  = if truthy (query !! "tags") then
      match tagList (toString (query !! "tags")) with
      | [] => None
      | tags => Some (FIn tags)
      end
    else None.
Proof.
  unfold buildProductFilter.
  destruct (tagList (toString (query !! "tags"))) as [|t ts] eqn:Htags; cbn [length Nat.ltb Nat.leb].
  all: repeat case_match;
    rewrite ?lookup_insert_eq, ?lookup_insert_ne, ?lookup_empty by done;
    try reflexivity; try discriminate.
Qed.

(** C8. Whatever the query mapping holds, the filter asserts
    [isActive = true]: no parameter removes, overrides or negates it. *)
Theorem active_only_always (query : gmap string qval) :
  buildProductFilter query !! "isActive" = Some (FBool true).
Proof.
  rewrite buildProductFilter_other_keys by done.
  apply lookup_singleton_eq.
Qed.

Example active_only_not_overridden :
  buildProductFilter {[ "isActive" := QStr "false"; "category" := QStr "isActive" ]}
    !! "isActive" = Some (FBool true).
Proof. by rewrite buildProductFilter_other_keys. Qed.

(** With both price parameters missing the builder still writes a price
    predicate, whose two bounds are [undefined]. *)
Lemma price_predicate_without_bounds (query : gmap string qval) :
  query !! "minPrice" = None → query !! "maxPrice" = None →
  buildProductFilter query !! "price"
  = Some (FRange (<[ "$lte" := Undefined ]> (<[ "$gte" := Undefined ]> ∅))).
Proof.
  intros Hmin Hmax. rewrite buildProductFilter_price, Hmin, Hmax.
  unfold priceStep. cbn [readBound boundIsNaN negb orb].
  apply lookup_insert_eq.
Qed.

(** A bound that does not convert to a number is left out of the price
    predicate, if there is one. *)
Lemma malformed_bound_omitted (query : gmap string qval) (v : qval) (r : gmap string priceBound) :
  buildProductFilter query !! "price" = Some (FRange r) →
  (query !! "minPrice" = Some v → toNumber v = Js.NumNaN → r !! "$gte" = None)
  ∧ (query !! "maxPrice" = Some v → toNumber v = Js.NumNaN → r !! "$lte" = None).
Proof.
  rewrite buildProductFilter_price. unfold priceStep. intros Hr. split.
  - intros Hq Hnan. rewrite Hq in Hr. cbn [readBound] in Hr. rewrite Hnan in Hr.
    cbn [boundIsNaN negb orb] in Hr.
    destruct (negb (boundIsNaN (readBound (query !! "maxPrice")))).
    + rewrite lookup_insert_eq in Hr. injection Hr as <-.
      by rewrite lookup_insert_ne, lookup_empty.
    + by rewrite lookup_empty in Hr.
  - intros Hq Hnan. rewrite Hq in Hr. cbn [readBound] in Hr. rewrite Hnan in Hr.
    cbn [boundIsNaN negb orb] in Hr. rewrite orb_false_r in Hr.
    destruct (negb (boundIsNaN (readBound (query !! "minPrice")))).
    + rewrite lookup_insert_eq in Hr. injection Hr as <-.
      by rewrite lookup_insert_ne, lookup_empty.
    + by rewrite lookup_empty in Hr.
Qed.

(** Two malformed bounds leave no price predicate. *)
Lemma malformed_bounds_no_predicate (query : gmap string qval) (v w : qval) :
  query !! "minPrice" = Some v → toNumber v = Js.NumNaN →
  query !! "maxPrice" = Some w → toNumber w = Js.NumNaN →
  buildProductFilter query !! "price" = None.
Proof.
  intros Hv Hnv Hw Hnw. rewrite buildProductFilter_price, Hv, Hw.
  unfold priceStep. cbn [readBound]. by rewrite Hnv, Hnw.
Qed.

(** C1. The builder called with neither [minPrice] nor [maxPrice] (here the
    empty query mapping) returns a filter that has a price predicate: the
    object [{ $gte: undefined, $lte: undefined }]. The guard tests
    [Number.isNaN], which is false for [undefined]. *)
Theorem price_predicate_on_empty_query :
  buildProductFilter ∅ !! "price"
  = Some (FRange (<[ "$lte" := Undefined ]> (<[ "$gte" := Undefined ]> ∅)))
  ∧ boundIsNaN Undefined = false.
Proof.
  split; [|reflexivity].
  by apply price_predicate_without_bounds.
Qed.

Example empty_string_bound_is_zero :
  buildProductFilter {[ "minPrice" := QStr ""; "maxPrice" := QStr "abc" ]} !! "price"
  = Some (FRange {[ "$gte" := Bound (Js.NumDecimal false 0 0) ]}).
Proof. vm_compute. reflexivity. Qed.

(** ** Strings: splitting, trimming, lower-casing *)

Lemma split_not_nil sep s : Js.split sep s ≠ [].
Proof. destruct s as [|c s]; cbn; [done|]. repeat case_match; done. Qed.

Lemma joinComma_cons a p ps :
  joinComma (a :: p :: ps) = a +:+ String "," (joinComma (p :: ps)).
Proof. reflexivity. Qed.

(** Joining the pieces with the separator gives the string back. *)
Lemma split_join s : joinComma (Js.split "," s) = s.
Proof.
  induction s as [|c s IH]; [reflexivity|].
  cbn [Js.split]. destruct (Ascii.eqb_spec c ",") as [->|Hc].
  - pose proof (split_not_nil "," s).
    destruct (Js.split "," s) as [|p ps] eqn:Hs; [done|].
    by rewrite joinComma_cons, IH.
  - destruct (Js.split "," s) as [|p ps] eqn:Hs.
    + by destruct (split_not_nil "," s).
    + rewrite <- IH. destruct ps as [|q qs]; [reflexivity|].
      by rewrite !joinComma_cons.
Qed.

(** No piece holds the separator. *)
Lemma split_pieces sep s : Forall (λ p, contains sep p = false) (Js.split sep s).
Proof.
  induction s as [|c s IH]; cbn [Js.split].
  - by constructor.
  - destruct (Ascii.eqb c sep) eqn:Hc.
    + by constructor.
    + destruct (Js.split sep s) as [|p ps]; [by repeat constructor; cbn; rewrite Hc|].
      inversion IH as [|? ? Hp Hps]; subst. constructor; [|done].
      cbn. by rewrite Hc, Hp.
Qed.

Lemma trimStart_head s : headPlain (Js.trimStart s).
Proof.
  induction s as [|c s IH]; cbn [Js.trimStart]; [exact I|].
  destruct (Js.isWhiteSpace c) eqn:Hc; [exact IH | exact Hc].
Qed.

Lemma trimEnd_head t : headPlain t → headPlain (Js.trimEnd t).
Proof.
  destruct t as [|c t]; [done|]. unfold headPlain. cbn [firstChar Js.trimEnd].
  intros Hc. rewrite Hc. by destruct (Js.trimEnd t).
Qed.

Lemma trimEnd_last s : lastPlain (Js.trimEnd s).
Proof.
  induction s as [|c s IH]; cbn [Js.trimEnd]; [exact I|].
  destruct (Js.trimEnd s) as [|x t] eqn:Ht.
  - destruct (Js.isWhiteSpace c) eqn:Hc; [exact I | exact Hc].
  - exact IH.
Qed.

Lemma lastChar_none t : lastChar t = None → t = EmptyString.
Proof.
  induction t as [|c t IH]; [done|]. cbn. destruct t; [done|].
  intros H. by specialize (IH H).
Qed.

Lemma plain_no_outerSpace t : headPlain t → lastPlain t → outerSpace t = false.
Proof.
  unfold headPlain, lastPlain, outerSpace.
  destruct (firstChar t), (lastChar t); try done.
  by intros -> ->.
Qed.

(** [trim] leaves no white space at either end. *)
Lemma trim_no_outerSpace s : outerSpace (Js.trim s) = false.
Proof.
  apply plain_no_outerSpace.
  - apply trimEnd_head, trimStart_head.
  - apply trimEnd_last.
Qed.

(** [trim] removes white space only, and only at the ends. *)
Lemma trimStart_split s :
  ∃ l, s = l +:+ Js.trimStart s ∧ allWhiteSpace l = true.
Proof.
  induction s as [|c s (l & Hl & Hws)]; [by exists ""|].
  cbn [Js.trimStart]. destruct (Js.isWhiteSpace c) eqn:Hc.
  - exists (String c l). rewrite append_cons, <- Hl. split; [done|].
    cbn. by rewrite Hc.
  - by exists "".
Qed.

Lemma trimEnd_split s :
  ∃ r, s = Js.trimEnd s +:+ r ∧ allWhiteSpace r = true.
Proof.
  induction s as [|c s (r & Hr & Hws)]; [by exists ""|].
  cbn [Js.trimEnd]. destruct (Js.trimEnd s) as [|x t] eqn:Ht.
  - rewrite append_nil_l in Hr. subst r.
    destruct (Js.isWhiteSpace c) eqn:Hc.
    + exists (String c s). split; [done|]. cbn. by rewrite Hc.
    + exists s. by rewrite append_cons.
  - exists r. by rewrite append_cons, <- Hr.
Qed.

Lemma trim_split s :
  ∃ l r, s = l +:+ Js.trim s +:+ r
         ∧ allWhiteSpace l = true ∧ allWhiteSpace r = true.
Proof.
  destruct (trimStart_split s) as (l & Hl & Hlw).
  destruct (trimEnd_split (Js.trimStart s)) as (r & Hr & Hrw).
  exists l, r. unfold Js.trim. by rewrite <- Hr, <- Hl.
Qed.

(** A string without white space at its ends is left as it is. *)
Lemma trimEnd_id s : lastPlain s → Js.trimEnd s = s.
Proof.
  induction s as [|c s IH]; [done|]. unfold lastPlain. cbn [lastChar Js.trimEnd].
  destruct s as [|x s].
  - intros Hc. cbn. by rewrite Hc.
  - intros Hlast. by rewrite IH.
Qed.

Lemma trim_id s : outerSpace s = false → Js.trim s = s.
Proof.
  intros Hs. unfold Js.trim. destruct s as [|c s]; [done|].
  unfold outerSpace in Hs. cbn [firstChar] in Hs.
  destruct (lastChar (String c s)) as [b|] eqn:Hlast.
  - apply orb_false_iff in Hs as [Hc Hb]. cbn [Js.trimStart]. rewrite Hc.
    apply trimEnd_id. unfold lastPlain. by rewrite Hlast.
  - by apply lastChar_none in Hlast.
Qed.

(** Lower-casing a character: the result is no capital letter; white space
    and commas are neither produced nor consumed. *)
Lemma lowerChar_facts c :
  isUpper (Js.lowerChar c) = false
  ∧ Js.isWhiteSpace (Js.lowerChar c) = Js.isWhiteSpace c
  ∧ Ascii.eqb (Js.lowerChar c) "," = Ascii.eqb c ",".
Proof. destruct c as [[] [] [] [] [] [] [] []]; vm_compute; done. Qed.

Lemma toLowerCase_no_upper s : hasUpper (Js.toLowerCase s) = false.
Proof.
  induction s as [|c s IH]; [done|]. cbn.
  destruct (lowerChar_facts c) as (-> & _). done.
Qed.

Lemma toLowerCase_first s : firstChar (Js.toLowerCase s) = Js.lowerChar <$> firstChar s.
Proof. by destruct s. Qed.

Lemma toLowerCase_last s : lastChar (Js.toLowerCase s) = Js.lowerChar <$> lastChar s.
Proof.
  induction s as [|c s IH]; [done|]. cbn [Js.toLowerCase lastChar].
  destruct s as [|x s]; [done|]. exact IH.
Qed.

Lemma toLowerCase_outerSpace s : outerSpace (Js.toLowerCase s) = outerSpace s.
Proof.
  unfold outerSpace. rewrite toLowerCase_first, toLowerCase_last.
  destruct (firstChar s) as [a|], (lastChar s) as [b|]; cbn; try done.
  destruct (lowerChar_facts a) as (_ & -> & _).
  by destruct (lowerChar_facts b) as (_ & -> & _).
Qed.

Lemma toLowerCase_contains_comma s :
  contains "," (Js.toLowerCase s) = contains "," s.
Proof.
  induction s as [|c s IH]; [done|]. cbn.
  destruct (lowerChar_facts c) as (_ & _ & ->). by rewrite IH.
Qed.

Lemma trimStart_contains c s :
  contains c s = false → contains c (Js.trimStart s) = false.
Proof.
  induction s as [|x s IH]; [done|]. cbn [Js.trimStart].
  destruct (Js.isWhiteSpace x); [|done].
  cbn. intros [_ H]%orb_false_iff. auto.
Qed.

Lemma trimEnd_contains c s :
  contains c s = false → contains c (Js.trimEnd s) = false.
Proof.
  induction s as [|x s IH]; [done|]. cbn [Js.trimEnd contains].
  intros [Hx Hs]%orb_false_iff. specialize (IH Hs).
  destruct (Js.trimEnd s) as [|y t].
  - destruct (Js.isWhiteSpace x); cbn; [done|]. by rewrite Hx.
  - cbn [contains] in *. by rewrite Hx, IH.
Qed.

Lemma trim_contains c s : contains c s = false → contains c (Js.trim s) = false.
Proof. intros H. by apply trimEnd_contains, trimStart_contains. Qed.

(** Every tag the builder keeps is a non-empty, trimmed, lower-case piece
    without a comma. *)
Lemma tagList_wellformed s :
  Forall (λ t, t ≠ EmptyString ∧ outerSpace t = false ∧ hasUpper t = false
               ∧ contains "," t = false) (tagList s).
Proof.
  unfold tagList. pose proof (split_pieces "," s) as Hpieces.
  induction Hpieces as [|p ps Hp _ IH]; cbn [map List.filter]; [constructor|].
  destruct (String.eqb_spec (Js.toLowerCase (Js.trim p)) "") as [He|Hne]; cbn [negb].
  - exact IH.
  - constructor; [|exact IH]. repeat split.
    + exact Hne.
    + rewrite toLowerCase_outerSpace. apply trim_no_outerSpace.
    + apply toLowerCase_no_upper.
    + rewrite toLowerCase_contains_comma. by apply trim_contains.
Qed.

(** The tags are exactly the normalised pieces that are not empty. *)
Lemma tagList_elem s t :
  t ∈ tagList s ↔
  t ≠ EmptyString ∧ ∃ p, p ∈ Js.split "," s ∧ t = Js.toLowerCase (Js.trim p).
Proof.
  unfold tagList. rewrite list_elem_of_In, filter_In, List.in_map_iff.
  split.
  - intros ((p & <- & Hp) & Hne). split.
    + intros He. rewrite He in Hne. discriminate.
    + exists p. by rewrite list_elem_of_In.
  - intros (Hne & p & Hp & ->). split.
    + exists p. by rewrite <- list_elem_of_In.
    + by destruct (String.eqb_spec (Js.toLowerCase (Js.trim p)) "").
Qed.

Example tagList_mixed : tagList " Red, BLUE ,blue" = ["red"; "blue"; "blue"].
Proof. reflexivity. Qed.

(** The tag predicate for [" Red, BLUE ,blue"] is the list
    [red, blue, blue]: three entries, one of them twice. *)
Lemma tags_not_deduplicated :
  buildProductFilter {[ "tags" := QStr " Red, BLUE ,blue" ]} !! "tags"
  = Some (FIn ["red"; "blue"; "blue"])
  ∧ length ["red"; "blue"; "blue"] = 3%nat
  ∧ ¬ NoDup ["red"; "blue"; "blue"].
Proof.
  split; [|split].
  - by rewrite buildProductFilter_tags.
  - reflexivity.
  - intros Hnd. inversion Hnd as [|? ? _ Hnd']; subst.
    inversion Hnd' as [|? ? Hin _]; subst. apply Hin. constructor.
Qed.

(** C2, amended. For a tags parameter, the builder splits the value on
    commas (the pieces joined by commas give the value back and hold no
    comma), trims and lower-cases each piece and discards the empty ones;
    what remains is kept as a list, in order and with its repetitions. Each
    entry is non-empty, trimmed, lower-case and free of commas; the
    predicate is left out when no entry remains. The input
    [" Red, BLUE ,blue"] yields the list [red, blue, blue]. *)
Theorem tags_predicate (query : gmap string qval) :
  truthy (query !! "tags") = true →
  let s := toString (query !! "tags") in
  let pieces := Js.split "," s in
  let tags := tagList s in
  joinComma pieces = s
  ∧ Forall (λ p, contains "," p = false) pieces
  ∧ tags = List.filter (λ t, negb (String.eqb t ""))
             (map (λ p, Js.toLowerCase (Js.trim p)) pieces)
  ∧ Forall (λ t, t ≠ EmptyString ∧ outerSpace t = false ∧ hasUpper t = false
                 ∧ contains "," t = false) tags
  ∧ buildProductFilter query !! "tags"
    = match tags with [] => None | _ => Some (FIn tags) end
  ∧ tagList " Red, BLUE ,blue" = ["red"; "blue"; "blue"].
Proof.
  intros Htruthy s pieces tags. subst s pieces tags.
  split; [apply split_join|].
  split; [apply split_pieces|].
  split; [reflexivity|].
  split; [apply tagList_wellformed|].
  split; [|reflexivity].
  rewrite buildProductFilter_tags, Htruthy.
  by destruct (tagList (toString (query !! "tags"))).
Qed.

Lemma tags_predicate_mixed_case :
  let query : gmap string qval := {[ "tags" := QStr " Red, BLUE ,blue" ]} in
  buildProductFilter query !! "tags" = Some (FIn ["red"; "blue"; "blue"]).
Proof.
  intros query.
  destruct (tags_predicate query) as (_ & _ & _ & _ & H & _); [reflexivity|].
  exact H.
Defined.

(** Without a tags parameter, or with an empty one, there is no tag
    predicate. *)
Lemma no_tags_no_predicate (query : gmap string qval) :
  truthy (query !! "tags") = false → buildProductFilter query !! "tags" = None.
Proof. intros H. by rewrite buildProductFilter_tags, H. Qed.

(** ** Sort resolver *)

Lemma allowedHas_elem f : allowedHas f = true ↔ f ∈ allowed.
Proof. unfold allowedHas. apply bool_decide_eq_true. Qed.

Lemma allowed_elems f :
  f ∈ allowed ↔ f = "price" ∨ f = "createdAt" ∨ f = "rating" ∨ f = "name".
Proof. unfold allowed. rewrite !elem_of_union, !elem_of_singleton. tauto. Qed.

(** What is stripped is one leading dash. *)
Lemma stripLeadingDash_spec field :
  (Js.startsWithDash field = true → field = String "-" (Js.stripLeadingDash field))
  ∧ (Js.startsWithDash field = false → field = Js.stripLeadingDash field).
Proof.
  destruct field as [|c f]; cbn; [done|].
  destruct (Ascii.eqb_spec c "-") as [->|]; done.
Qed.

(** A token padded with white space is not resolved by its raw form:
    [" price"] (what [sort=+price] decodes to) with one leading dash
    stripped is [" price"], which is outside the whitelist, and yet it
    resolves to [price] ascending and not to the default; [" -rating "]
    does not start with a dash and yet resolves to [rating] descending. *)
Lemma padded_token_not_default :
  parseSort (Some (QStr " price")) = SortSpec "price" Ascending
  ∧ (Js.stripLeadingDash " price" ∉ allowed)
  ∧ SortSpec "price" Ascending ≠ defaultSort
  ∧ parseSort (Some (QStr " -rating ")) = SortSpec "rating" Descending
  ∧ Js.startsWithDash " -rating " = false.
Proof.
  split; [reflexivity|]. split; [|split; [discriminate | split; reflexivity]].
  rewrite allowed_elems. cbn. intros [H|[H|[H|H]]]; discriminate H.
Qed.

(** C7, amended. For every raw sort token the resolver returns a pair whose
    field is in the whitelist [price], [createdAt], [rating], [name]. An
    absent token and the empty token resolve to the default, [createdAt]
    descending. Otherwise the token is converted to a string and trimmed of
    surrounding white space (a token without such white space is left as
    it is): a token whose field, the trimmed token after stripping one
    leading dash, is outside the whitelist resolves to the default; for a
    whitelisted field, a leading dash on the trimmed token yields
    descending order and its absence ascending order. *)
Theorem parseSort_resolves (sortParam : option qval) :
  let field := Js.trim (toString sortParam) in
  let cleanField := Js.stripLeadingDash field in
  sortField (parseSort sortParam) ∈ allowed
  ∧ (sortParam = None ∨ sortParam = Some (QStr "") → parseSort sortParam = defaultSort)
  ∧ (cleanField ∉ allowed → parseSort sortParam = defaultSort)
  ∧ (cleanField ∈ allowed →
     parseSort sortParam
     = SortSpec cleanField (if Js.startsWithDash field then Descending else Ascending))
  ∧ (Js.startsWithDash field = true → field = String "-" cleanField)
  ∧ (Js.startsWithDash field = false → field = cleanField)
  ∧ (outerSpace (toString sortParam) = false → field = toString sortParam).
Proof.
  intros field cleanField.
  assert (truthy sortParam = false → allowedHas cleanField = false) as Hfalsy.
  { subst field cleanField. destruct sortParam as [[s| |]|]; cbn [truthy]; try done.
    destruct s; [|done]. done. }
  assert (parseSort sortParam
          = if allowedHas cleanField
            then SortSpec cleanField (if Js.startsWithDash field then Descending else Ascending)
            else defaultSort) as Hparse.
  { unfold parseSort. fold field. fold cleanField.
    destruct (truthy sortParam) eqn:Ht; cbn [negb].
    - by destruct (allowedHas cleanField).
    - by rewrite Hfalsy. }
  split; [|split; [|split; [|split; [|split; [|split]]]]].
  - rewrite Hparse. destruct (allowedHas cleanField) eqn:Ha.
    + by apply allowedHas_elem.
    + apply allowed_elems. cbn. auto.
  - intros [-> | ->]; reflexivity.
  - intros Hout. rewrite Hparse.
    destruct (allowedHas cleanField) eqn:Ha; [|done].
    by apply allowedHas_elem in Ha.
  - intros Hin. rewrite Hparse.
    by apply allowedHas_elem in Hin as ->.
  - apply stripLeadingDash_spec.
  - apply stripLeadingDash_spec.
  - apply trim_id.
Qed.

Example parseSort_samples :
  parseSort (Some (QStr "-price")) = SortSpec "price" Descending
  ∧ parseSort (Some (QStr "rating")) = SortSpec "rating" Ascending
  ∧ parseSort (Some (QStr "--price")) = defaultSort
  ∧ parseSort (Some (QStr "password")) = defaultSort
  ∧ parseSort (Some (QArr [QStr "name"; QStr "price"])) = defaultSort
  ∧ parseSort (Some (QStr "")) = defaultSort
  ∧ parseSort None = defaultSort.
Proof. repeat split. Qed.

(** ** Response cache *)

Section cache.

Variable ttlSeconds : Z.
Variable req : request.
Hypothesis is_get : method req = "GET".

Implicit Types (now t d : Z) (store later : cacheStore) (e : entry).

Lemma cacheMiddleware_get now store :
  cacheMiddleware ttlSeconds req now store
  = match store !! buildCacheKey req with
    | Some cached =>
        if now <? expiresAt cached then Hit (payload cached)
        else Miss (buildCacheKey req) now
    | None => Miss (buildCacheKey req) now
    end.
Proof. unfold cacheMiddleware. by rewrite is_get. Qed.

(** What the closure installed on a miss leaves under its key. *)
Lemma resJson_lookup key now b later :
  resJson ttlSeconds key now b later !! key
  = Some {| payload := b; expiresAt := now + ttlSeconds * 1000 |}.
Proof. apply lookup_insert_eq. Qed.

(** The other keys are not touched. *)
Lemma resJson_other key key' now b later :
  key ≠ key' → resJson ttlSeconds key now b later !! key' = later !! key'.
Proof. intros H. by apply lookup_insert_ne. Qed.

(** Whatever goes out through [res.json] after a miss is stored, whatever
    its status. *)
Lemma capture_after_miss key now emitted st b later :
  jsonCall emitted = Some (st, b) →
  capture ttlSeconds (Miss key now) emitted later !! key
  = Some {| payload := b; expiresAt := now + ttlSeconds * 1000 |}.
Proof. intros H. unfold capture. rewrite H. apply resJson_lookup. Qed.

(** A stored entry is served exactly while the time is before its expiry. *)
Lemma stored_entry_served t store e :
  store !! buildCacheKey req = Some e →
  cacheMiddleware ttlSeconds req t store = Hit (payload e) ↔ t < expiresAt e.
Proof.
  intros He. rewrite cacheMiddleware_get, He.
  destruct (Z.ltb_spec t (expiresAt e)); split; try done; lia.
Qed.

(** C4. For a GET request whose key has a stored entry, the middleware
    serves the stored payload, without passing control to the wrapped
    handler, if and only if the current time is strictly before the entry's
    [expiresAt]. Otherwise the request is a miss: the handler runs with the
    capturing [res.json], and the payload it then emits replaces the entry,
    with an expiry counted from this request. *)
Theorem hit_iff_before_expiry now store e :
  store !! buildCacheKey req = Some e →
  let r := cacheMiddleware ttlSeconds req now store in
  (r = Hit (payload e) ↔ now < expiresAt e)
  ∧ (callsNext r = false ↔ now < expiresAt e)
  ∧ (expiresAt e ≤ now →
     r = Miss (buildCacheKey req) now
     ∧ ∀ emitted st fresh later,
         jsonCall emitted = Some (st, fresh) →
         capture ttlSeconds r emitted later !! buildCacheKey req
         = Some {| payload := fresh; expiresAt := now + ttlSeconds * 1000 |}).
Proof.
  intros He r. subst r. split; [by apply stored_entry_served|].
  rewrite cacheMiddleware_get, He.
  destruct (Z.ltb_spec now (expiresAt e)) as [Hlt|Hge]; cbn [callsNext].
  - split; [done|]. intros ?. lia.
  - split; [split; [done | lia]|]. intros _. split; [done|].
    intros emitted st fresh later Hj. by eapply capture_after_miss.
Qed.

(** C5. The entry stored after a miss expires at the time the miss was
    detected plus the TTL, not at the time of the store plus the TTL: when
    the handler takes [d] to produce the payload, so that the entry is
    stored at [now + d], a later request is served from it exactly while
    less than [ttl - d] has passed since the store. *)
Theorem expiry_counts_from_miss now d store later r emitted st b :
  cacheMiddleware ttlSeconds req now store = r →
  callsNext r = true →
  0 ≤ d →
  jsonCall emitted = Some (st, b) →
  let key := buildCacheKey req in
  let storedAt := now + d in
  let stored := capture ttlSeconds r emitted later in
  stored !! key = Some {| payload := b; expiresAt := now + ttlSeconds * 1000 |}
  ∧ (0 < d → now + ttlSeconds * 1000 ≠ storedAt + ttlSeconds * 1000)
  ∧ ∀ t, storedAt ≤ t →
      cacheMiddleware ttlSeconds req t stored = Hit b
      ↔ t - storedAt < ttlSeconds * 1000 - d.
Proof.
  intros Hr Hmiss Hd Hj key storedAt stored.
  assert (r = Miss key now) as ->.
  { subst r. rewrite cacheMiddleware_get in *.
    destruct (store !! buildCacheKey req) as [cached|]; [|done].
    by destruct (now <? expiresAt cached). }
  assert (stored !! key = Some {| payload := b; expiresAt := now + ttlSeconds * 1000 |})
    as Hstored by (by eapply capture_after_miss).
  split; [exact Hstored|]. split; [subst storedAt; lia|].
  intros t Ht. rewrite (stored_entry_served t stored _ Hstored).
  cbn [expiresAt]. subst storedAt. lia.
Qed.

End cache.

Lemma hit_iff_before_expiry_sample :
  let req := Request "GET" "/api/products?page=2" "" None in
  let store : cacheStore := {[ "GET:/api/products?page=2" := Entry (message "cached") 5000 ]} in
  (cacheMiddleware 30 req 4999 store = Hit (message "cached") ↔ 4999 < 5000)
  ∧ cacheMiddleware 30 req 5000 store = Miss "GET:/api/products?page=2" 5000.
Proof.
  intros req store.
  pose proof (hit_iff_before_expiry 30 req eq_refl 4999 store
                (Entry (message "cached") 5000) eq_refl) as (H1 & _).
  pose proof (hit_iff_before_expiry 30 req eq_refl 5000 store
                (Entry (message "cached") 5000) eq_refl) as (_ & _ & H3).
  split; [exact H1|]. apply H3. cbn. lia.
Defined.

Lemma expiry_counts_from_miss_sample :
  let req := Request "GET" "/api/products" "" None in
  let stored := capture 30 (Miss "GET:/api/products" 1000) (Json 200 (message "list")) ∅ in
  stored !! "GET:/api/products" = Some (Entry (message "list") 31000)
  ∧ (cacheMiddleware 30 req 30999 stored = Hit (message "list")
     ↔ 30999 - 6000 < 30 * 1000 - 5000).
Proof.
  intros req stored.
  pose proof (expiry_counts_from_miss 30 req eq_refl 1000 5000 ∅ ∅
                (Miss "GET:/api/products" 1000)
                (Json 200 (message "list")) 200 (message "list") eq_refl eq_refl
                ltac:(lia) eq_refl) as (H1 & _ & H3).
  split; [exact H1|]. apply (H3 30999). lia.
Defined.

(** ** Detail route: what the cache keeps of an error *)

(** The detail handler always answers through [res.json], if need be by way
    of the error handler. *)
Lemma getProductById_jsonCall mg req :
  ∃ st b, jsonCall (getProductById mg req) = Some (st, b).
Proof.
  unfold getProductById. destruct (isValid mg (id req)); cbn [negb]; [|by eauto].
  destruct (findById mg (id req)) as [[product|]|err]; cbn; eauto.
Qed.

Lemma getProductById_invalid mg req :
  isValid mg (id req) = false →
  getProductById mg req = Json 400 (message "Invalid product id").
Proof. intros H. unfold getProductById. by rewrite H. Qed.

Lemma getProductById_missing mg req :
  isValid mg (id req) = true → findById mg (id req) = Resolved None →
  getProductById mg req = Json 404 (message "Product not found").
Proof. intros H1 H2. unfold getProductById. by rewrite H1, H2. Qed.

(** The 400 body of the detail route is stored on a miss and served, with
    status 200, to the next request for the same key; so is the 404 body. *)
Lemma error_bodies_cached_and_served :
  let bad := Request "GET" "/api/products/42" "42" None in
  let gone := Request "GET" "/api/products/0123456789abcdef01234567"
                "0123456789abcdef01234567" None in
  let invalid := message "Invalid product id" in
  let notFound := message "Product not found" in
  getDetail emptyCatalog bad 1000 ∅ ∅
  = (Response 400 (Some invalid), {[ "GET:/api/products/42" := Entry invalid 61000 ]})
  ∧ getDetail emptyCatalog bad 2000 {[ "GET:/api/products/42" := Entry invalid 61000 ]} ∅
    = (Response 200 (Some invalid), {[ "GET:/api/products/42" := Entry invalid 61000 ]})
  ∧ getDetail emptyCatalog gone 1000 ∅ ∅
    = (Response 404 (Some notFound),
       {[ "GET:/api/products/0123456789abcdef01234567" := Entry notFound 61000 ]})
  ∧ cacheMiddleware DETAIL_TTL gone 60999
      {[ "GET:/api/products/0123456789abcdef01234567" := Entry notFound 61000 ]}
    = Hit notFound.
Proof. vm_compute. done. Qed.

(** C3, amended. On a cache miss the cache stores the payload the wrapped
    handler emits through [res.json] whatever its status: the 400
    invalid-identifier body and the 404 not-found body of the detail path
    are stored under the request's key, with an expiry of the miss time plus
    the TTL, and are served to later requests for the same key until then. *)
Theorem detail_errors_are_cached (mg : Mongoose) (req : request) (now : Z)
    (store later : cacheStore) :
  method req = "GET" →
  callsNext (cacheMiddleware DETAIL_TTL req now store) = true →
  isValid mg (id req) = false ∨ findById mg (id req) = Resolved None →
  let key := buildCacheKey req in
  let resp := fst (getDetail mg req now store later) in
  let stored := snd (getDetail mg req now store later) in
  ∃ b,
    (resp = Response 400 (Some b) ∧ b = message "Invalid product id"
     ∨ resp = Response 404 (Some b) ∧ b = message "Product not found")
    ∧ stored !! key = Some {| payload := b; expiresAt := now + DETAIL_TTL * 1000 |}
    ∧ ∀ t, t < now + DETAIL_TTL * 1000 →
        cacheMiddleware DETAIL_TTL req t stored = Hit b
        ∧ fst (getDetail mg req t stored stored) = Response 200 (Some b).
Proof.
  intros Hget Hmiss Herr key resp stored.
  assert (cacheMiddleware DETAIL_TTL req now store = Miss key now) as Hr.
  { rewrite cacheMiddleware_get in * by done.
    destruct (store !! buildCacheKey req) as [cached|]; [|done].
    by destruct (now <? expiresAt cached). }
  assert (∃ st b, getProductById mg req = Json st b
            ∧ (st = 400 ∧ b = message "Invalid product id"
               ∨ st = 404 ∧ b = message "Product not found")) as (st & b & He & Hb).
  { destruct (isValid mg (id req)) eqn:Hv.
    - destruct Herr as [|Hnone]; [done|].
      eexists _, _. split; [by apply getProductById_missing | by right].
    - eexists _, _. split; [by apply getProductById_invalid | by left]. }
  assert (resp = Response st (Some b)) as Hresp.
  { subst resp. unfold getDetail. by rewrite Hr, He. }
  assert (stored !! key = Some {| payload := b; expiresAt := now + DETAIL_TTL * 1000 |})
    as Hstored.
  { subst stored. unfold getDetail. rewrite Hr, He. cbn [snd capture jsonCall].
    apply resJson_lookup. }
  exists b. split; [|split; [exact Hstored|]].
  - rewrite Hresp. destruct Hb as [[-> ->] | [-> ->]]; [by left | by right].
  - intros t Ht.
    assert (cacheMiddleware DETAIL_TTL req t stored = Hit b) as Hhit
      by (by apply (stored_entry_served DETAIL_TTL req Hget t stored _ Hstored)).
    split; [exact Hhit|]. unfold getDetail. by rewrite Hhit.
Qed.

Lemma detail_errors_are_cached_sample :
  let req := Request "GET" "/api/products/42" "42" None in
  let first := getDetail emptyCatalog req 1000 ∅ ∅ in
  ∃ b,
    (fst first = Response 400 (Some b) ∧ b = message "Invalid product id"
     ∨ fst first = Response 404 (Some b) ∧ b = message "Product not found")
    ∧ snd first !! buildCacheKey req
      = Some {| payload := b; expiresAt := 1000 + DETAIL_TTL * 1000 |}
    ∧ ∀ t, t < 1000 + DETAIL_TTL * 1000 →
        cacheMiddleware DETAIL_TTL req t (snd first) = Hit b
        ∧ fst (getDetail emptyCatalog req t (snd first) (snd first))
          = Response 200 (Some b).
Proof.
  intros req first.
  exact (detail_errors_are_cached emptyCatalog req 1000 ∅ ∅ eq_refl eq_refl
           (or_introl eq_refl)).
Defined.

(** ** Writes and invalidation *)

(** The invalidation primitive leaves no entry, whatever the key. *)
Lemma invalidateCache_clears (store : cacheStore) (key : string) :
  invalidateCache store !! key = None.
Proof. apply lookup_empty. Qed.

(** A create whose body lacks a required field answers 400 and leaves the
    store alone; the collaborator is not called. *)
Lemma createProduct_missing_field mg req (store : cacheStore) :
  requiredPresent (body req) = false →
  createProduct mg req store
  = (Json 400 (message "name, slug, price and category are required"), store).
Proof.
  unfold requiredPresent, createProduct. intros H.
  destruct (falsy (field "name" (bodyOrEmpty (body req)))),
           (falsy (field "slug" (bodyOrEmpty (body req)))),
           (nullish (field "price" (bodyOrEmpty (body req)))),
           (falsy (field "category" (bodyOrEmpty (body req)))); done.
Qed.

(** What a create with its required fields does, by the collaborator's
    answer. *)
Lemma createProduct_complete mg req (store : cacheStore) :
  requiredPresent (body req) = true →
  createProduct mg req store
  = match create mg (createPayload (bodyOrEmpty (body req))) with
    | Resolved product => (Json 201 product, invalidateCache store)
    | Rejected err =>
        if isDuplicateKey err
        then (Json 409 (message "Slug must be unique"), store)
        else (Next err, store)
    end.
Proof.
  unfold requiredPresent, createProduct. intros H.
  destruct (falsy (field "name" (bodyOrEmpty (body req)))),
           (falsy (field "slug" (bodyOrEmpty (body req)))),
           (nullish (field "price" (bodyOrEmpty (body req)))),
           (falsy (field "category" (bodyOrEmpty (body req)))); done.
Qed.

(** Every write handler clears the store when it answers with its success
    status and leaves it as it is otherwise. *)
Lemma dispatchWrite_store w mg req (store : cacheStore) :
  snd (dispatchWrite w mg req store)
  = if succeeded (fst (dispatchWrite w mg req store))
    then invalidateCache store else store.
Proof.
  destruct w; cbn [dispatchWrite].
  - destruct (requiredPresent (body req)) eqn:Hreq.
    + rewrite (createProduct_complete mg req store Hreq).
      destruct (create mg _) as [product|err]; [done|].
      by destruct (isDuplicateKey err).
    + by rewrite createProduct_missing_field.
  - unfold updateProduct. destruct (isValid mg (id req)); [|done]. cbn [negb].
    destruct (findByIdAndUpdate mg (id req) (bodyOrEmpty (body req)))
      as [[product|]|err]; try done.
    by destruct (isDuplicateKey err).
  - unfold deleteProduct. destruct (isValid mg (id req)); [|done]. cbn [negb].
    by destruct (findByIdAndDelete mg (id req)) as [[product|]|err].
Qed.

(** The statuses the handlers answer with themselves. *)
Lemma dispatchWrite_status w mg req (store : cacheStore) :
  match fst (dispatchWrite w mg req store) with
  | Json st _ => st = 200 ∨ st = 201 ∨ st = 400 ∨ st = 404 ∨ st = 409
  | Send st => st = 204
  | Next _ => True
  end.
Proof.
  destruct w; cbn [dispatchWrite].
  - destruct (requiredPresent (body req)) eqn:Hreq.
    + rewrite (createProduct_complete mg req store Hreq).
      destruct (create mg _) as [product|err]; cbn; [tauto|].
      destruct (isDuplicateKey err); cbn; tauto.
    + rewrite createProduct_missing_field by done. cbn. tauto.
  - unfold updateProduct. destruct (isValid mg (id req)); cbn; [|tauto].
    destruct (findByIdAndUpdate mg (id req) (bodyOrEmpty (body req)))
      as [[product|]|err]; cbn; try tauto.
    destruct (isDuplicateKey err); cbn; tauto.
  - unfold deleteProduct. destruct (isValid mg (id req)); cbn; [|tauto].
    destruct (findByIdAndDelete mg (id req)) as [[product|]|err]; cbn; tauto.
Qed.

(** A write handler answers with its success status exactly when the
    storage performed the write, and clears the store exactly then. *)
Lemma dispatchWrite_performed w mg req (store : cacheStore) :
  succeeded (fst (dispatchWrite w mg req store)) = performed w mg req
  ∧ snd (dispatchWrite w mg req store)
    = if performed w mg req then invalidateCache store else store.
Proof.
  destruct w; cbn [dispatchWrite performed].
  - destruct (requiredPresent (body req)) eqn:Hreq; cbn [andb].
    + rewrite (createProduct_complete mg req store Hreq).
      destruct (create mg _) as [product|err]; [done|].
      by destruct (isDuplicateKey err).
    + by rewrite createProduct_missing_field.
  - unfold updateProduct. destruct (isValid mg (id req)); [|done]. cbn [negb andb].
    destruct (findByIdAndUpdate mg (id req) (bodyOrEmpty (body req)))
      as [[product|]|err]; try done.
    by destruct (isDuplicateKey err).
  - unfold deleteProduct. destruct (isValid mg (id req)); [|done]. cbn [negb andb].
    by destruct (findByIdAndDelete mg (id req)) as [[product|]|err].
Qed.

(** C9. The invalidation primitive removes every entry, whatever its key.
    A write (create, update, delete) invokes it exactly after it succeeded:
    when the storage performed the write (the create resolved; the update or
    the delete found its document) the handler answers 201, 200 or 204 and
    the store is empty afterwards; in every other case the handler answers
    otherwise and the store is unchanged. In particular a create rejected
    for a duplicate key answers 409, and one that lacks a required field
    answers 400 without reaching the storage; both leave the cache contents
    unchanged. *)
Theorem writes_invalidate_on_success (w : writeRoute) (mg : Mongoose)
    (req : request) (store : cacheStore) :
  let e := fst (dispatchWrite w mg req store) in
  let after := snd (dispatchWrite w mg req store) in
  (∀ key, invalidateCache store !! key = None)
  ∧ runWrite w mg req store = (respond e, after)
  ∧ after = (if performed w mg req then invalidateCache store else store)
  ∧ (performed w mg req = true →
     (∀ key, after !! key = None)
     ∧ match w with
       | Post =>
           ∃ doc, create mg (createPayload (bodyOrEmpty (body req))) = Resolved doc
                  ∧ e = Json 201 doc
       | Put =>
           ∃ doc, findByIdAndUpdate mg (id req) (bodyOrEmpty (body req))
                  = Resolved (Some doc)
                  ∧ e = Json 200 doc
       | Delete => e = Send 204
       end)
  ∧ (performed w mg req = false → after = store ∧ succeeded e = false)
  ∧ (succeeded e = true ↔ e = Send 204 ∨ ∃ doc, e = Json 201 doc ∨ e = Json 200 doc)
  ∧ (requiredPresent (body req) = false →
     performed Post mg req = false
     ∧ createProduct mg req store
       = (Json 400 (message "name, slug, price and category are required"), store))
  ∧ (∀ err,
       requiredPresent (body req) = true →
       create mg (createPayload (bodyOrEmpty (body req))) = Rejected err →
       code err = Some 11000 →
       performed Post mg req = false
       ∧ createProduct mg req store
         = (Json 409 (message "Slug must be unique"), store)).
Proof.
  intros e after.
  pose proof (dispatchWrite_performed w mg req store) as [Hok Hstore].
  pose proof (dispatchWrite_status w mg req store) as Hstatus.
  fold e in Hok, Hstatus. fold after in Hstore.
  split; [apply invalidateCache_clears|].
  split; [unfold runWrite; subst e after; by destruct (dispatchWrite w mg req store)|].
  split; [done|]. split.
  { intros Hp. split.
    - intros key. rewrite Hstore, Hp. apply invalidateCache_clears.
    - subst e. clear Hok Hstatus Hstore after. destruct w; cbn [performed dispatchWrite] in *.
      + apply andb_true_iff in Hp as [Hreq Hp].
        rewrite (createProduct_complete mg req store Hreq).
        destruct (create mg _) as [product|err]; [eauto | done].
      + apply andb_true_iff in Hp as [Hv Hp]. unfold updateProduct. rewrite Hv.
        cbn [negb].
        destruct (findByIdAndUpdate mg (id req) (bodyOrEmpty (body req)))
          as [[product|]|err]; [eauto | done | done].
      + apply andb_true_iff in Hp as [Hv Hp]. unfold deleteProduct. rewrite Hv.
        cbn [negb].
        by destruct (findByIdAndDelete mg (id req)) as [[product|]|err]. }
  split; [intros Hp; by rewrite Hstore, Hok, Hp|].
  split.
  - destruct e as [st doc|st|err]; cbn [succeeded] in *.
    + split.
      * intros Hs. right. exists doc.
        destruct Hstatus as [->|[->|[->|[->| ->]]]]; try done; auto.
      * intros [?|(doc' & [H|H])]; try done; by injection H as -> _.
    + subst st. split; [by left | done].
    + split; [done|]. intros [?|(doc' & [?|?])]; done.
  - split.
    + intros Hreq. split; [cbn [performed]; by rewrite Hreq|].
      by apply createProduct_missing_field.
    + intros err Hreq Hdup Hcode. split; [cbn [performed]; by rewrite Hreq, Hdup|].
      rewrite (createProduct_complete mg req store Hreq), Hdup.
      unfold isDuplicateKey. by rewrite Hcode.
Qed.

(** A delete that finds its document clears a store of one entry; a create
    refused for a duplicate key leaves it as it is. *)
Lemma writes_invalidate_on_success_sample :
  let store : cacheStore := {[ "GET:/api/products" := Entry (message "list") 9000 ]} in
  let del := Request "DELETE" "/api/products/0123456789abcdef01234567"
               "0123456789abcdef01234567" None in
  let dup := Request "POST" "/api/products" ""
               (Some (JObject [("name", JString "Lamp"); ("slug", JString "lamp");
                               ("price", JNumber (Js.NumDecimal false 1999 (-2)));
                               ("category", JString "home")])) in
  (performed Delete acceptingCatalog del = true
   ∧ snd (dispatchWrite Delete acceptingCatalog del store) = ∅
   ∧ fst (dispatchWrite Delete acceptingCatalog del store) = Send 204)
  ∧ (performed Post emptyCatalog dup = false
     ∧ createProduct emptyCatalog dup store
       = (Json 409 (message "Slug must be unique"), store)).
Proof.
  intros store del dup. split.
  - destruct (writes_invalidate_on_success Delete acceptingCatalog del store)
      as (_ & _ & Hafter & Hdone & _).
    split; [reflexivity|]. split; [exact Hafter|].
    exact (proj2 (Hdone eq_refl)).
  - destruct (writes_invalidate_on_success Post emptyCatalog dup store)
      as (_ & _ & _ & _ & _ & _ & _ & Hdup).
    exact (Hdup duplicateKey eq_refl eq_refl eq_refl).
Defined.

Example failed_create_keeps_cache :
  let store : cacheStore := {[ "GET:/api/products" := Entry (message "list") 9000 ]} in
  let lamp := JObject [("name", JString "Lamp"); ("slug", JString "lamp");
                       ("price", JNumber (Js.NumDecimal false 1999 (-2)));
                       ("category", JString "home")] in
  runWrite Post emptyCatalog (Request "POST" "/api/products" "" (Some lamp)) store
  = (Response 409 (Some (message "Slug must be unique")), store)
  ∧ runWrite Post emptyCatalog (Request "POST" "/api/products" "" (Some (JObject []))) store
    = (Response 400 (Some (message "name, slug, price and category are required")), store)
  ∧ runWrite Post acceptingCatalog (Request "POST" "/api/products" "" (Some lamp)) store
    = (Response 201 (Some (JObject [("slug", JString "lamp")])), ∅)
  ∧ runWrite Delete acceptingCatalog
      (Request "DELETE" "/api/products/0123456789abcdef01234567"
         "0123456789abcdef01234567" None) store
    = (Response 204 None, ∅)
  ∧ runWrite Put emptyCatalog
      (Request "PUT" "/api/products/0123456789abcdef01234567"
         "0123456789abcdef01234567" (Some lamp)) store
    = (Response 404 (Some (message "Product not found")), store).
Proof. vm_compute. done. Qed.

(** ** List handler *)

(** The rounded-up quotient by a positive divisor. *)
Lemma ceilDiv_bounds (a b : Z) :
  0 < b → a ≤ ceilDiv a b * b ∧ (ceilDiv a b - 1) * b < a.
Proof.
  intros Hb. unfold ceilDiv.
  pose proof (Z.div_mod (- a) b ltac:(lia)) as Hdm.
  pose proof (Z.mod_pos_bound (- a) b Hb) as Hmod.
  split; nia.
Qed.

(** For a total below 2^53 the page count is an integer of at least 1, the
    least number of pages of [l] items that hold [total] items. *)
Lemma totalPagesOf_bounds (total l : Z) :
  0 ≤ total < 2 ^ 53 → 0 < l →
  ∃ pages,
    totalPagesOf total (Js.Num l) = Js.Num pages
    ∧ 1 ≤ pages
    ∧ total ≤ pages * l
    ∧ (0 < total → (pages - 1) * l < total)
    ∧ (total = 0 → pages = 1).
Proof.
  intros Htotal Hl. unfold totalPagesOf. cbv zeta.
  destruct (Z.eqb_spec l 0) as [?|_]; [lia|].
  destruct (ceilDiv_bounds total l Hl) as [Hup Hlow].
  destruct (Z.eqb_spec (ceilDiv total l) 0) as [Hz|Hnz].
  - exists 1. rewrite Hz in *. repeat split; lia.
  - exists (ceilDiv total l).
    assert (1 ≤ ceilDiv total l) as Hone by nia.
    split.
    + apply ofInteger_small. change (2 ^ 53) with 9007199254740992 in *. nia.
    + repeat split; try lia. intros ->. nia.
Qed.

Lemma parseSort_field_allowed (sortParam : option qval) :
  sortField (parseSort sortParam) ∈ allowed.
Proof.
  unfold parseSort. destruct (truthy sortParam); cbn [negb].
  - destruct (allowedHas _) eqn:Ha; cbn [negb sortField].
    + by apply allowedHas_elem.
    + apply allowed_elems. cbn. auto.
  - apply allowed_elems. cbn. auto.
Qed.

Lemma buildProductFilter_active (query : gmap string qval) :
  buildProductFilter query !! "isActive" = Some (FBool true).
Proof. by rewrite buildProductFilter_other_keys. Qed.

(** X1. When both queries resolve, with a total below 2^53, the list
    handler answers 200 with the items found and a pagination block that
    holds the resolved page and limit (not the raw parameters), the total,
    and a page count that is at least 1 and is the least number of pages of
    that limit holding the total; an empty result has one page. The limit
    is an integer from 1 to 100; the page is an integer of at least 1, or
    the positive infinity for a page parameter too long for a double. *)
Theorem list_envelope (lst : Listing) (query : gmap string qval)
    (items : list json) (total : Z) :
  find lst (buildProductFilter query) projection (parseSort (query !! "sort"))
    (skip (parsePagination query)) (limit (parsePagination query))
  = Resolved items →
  countDocuments lst (buildProductFilter query) = Resolved total →
  0 ≤ total < 2 ^ 53 →
  ∃ l pages : Z,
    getProducts lst query
    = Json 200
        (JObject
           [("data", JArray items);
            ("pagination",
             JObject [("page", jsonOfNumber (page (parsePagination query)));
                      ("limit", jsonOfZ l);
                      ("total", jsonOfZ total); ("totalPages", jsonOfZ pages)])])
    ∧ limit (parsePagination query) = Js.Num l
    ∧ 1 ≤ l ≤ 100
    ∧ (page (parsePagination query) = Js.Infinity false
       ∨ ∃ p, page (parsePagination query) = Js.Num p ∧ 1 ≤ p)
    ∧ 1 ≤ pages ∧ total ≤ pages * l
    ∧ (0 < total → (pages - 1) * l < total)
    ∧ (total = 0 → pages = 1).
Proof.
  intros Hfind Hcount Htotal.
  destruct (parsePagination_shape query) as ((l & Hl & Hlr) & Hp & _).
  destruct (totalPagesOf_bounds total l Htotal ltac:(lia))
    as (pages & Hpages & H1 & H2 & H3 & H4).
  exists l, pages. split.
  - unfold getProducts. cbv zeta. rewrite Hfind, Hcount.
    unfold envelope. by rewrite Hl, Hpages.
  - repeat split; try done; lia.
Qed.

Lemma list_envelope_sample :
  let query : gmap string qval := {[ "page" := QStr "3"; "limit" := QStr "10" ]} in
  ∃ l pages : Z,
    getProducts onePage query
    = Json 200
        (JObject
           [("data", JArray [JObject [("slug", JString "lamp")]]);
            ("pagination",
             JObject [("page", jsonOfNumber (page (parsePagination query)));
                      ("limit", jsonOfZ l);
                      ("total", jsonOfZ 41); ("totalPages", jsonOfZ pages)])])
    ∧ limit (parsePagination query) = Js.Num l
    ∧ 1 ≤ l ≤ 100
    ∧ (page (parsePagination query) = Js.Infinity false
       ∨ ∃ p, page (parsePagination query) = Js.Num p ∧ 1 ≤ p)
    ∧ 1 ≤ pages ∧ 41 ≤ pages * l
    ∧ (0 < 41 → (pages - 1) * l < 41)
    ∧ (41 = 0 → pages = 1).
Proof.
  intros query.
  apply (list_envelope onePage query [JObject [("slug", JString "lamp")]] 41).
  - reflexivity.
  - reflexivity.
  - vm_compute. split; [discriminate | reflexivity].
Defined.

Example list_envelope_pages :
  getProducts onePage {[ "page" := QStr "3"; "limit" := QStr "10" ]}
  = Json 200 (envelope [JObject [("slug", JString "lamp")]]
                (Pagination (Js.Num 3) (Js.Num 10) (Js.Num 20)) 41)
  ∧ totalPagesOf 41 (Js.Num 10) = Js.Num 5
  ∧ totalPagesOf 40 (Js.Num 10) = Js.Num 4
  ∧ totalPagesOf 0 (Js.Num 10) = Js.Num 1
  ∧ field "pagination"
      (envelope [] (parsePagination {[ "page" := QStr (repeatChar "9" 400) ]}) 0)
    = Some (JObject [("page", JNumber (Js.NumInfinity false));
                     ("limit", jsonOfZ 20); ("total", jsonOfZ 0);
                     ("totalPages", jsonOfZ 1)]).
Proof. vm_compute. done. Qed.

(** X2. The list handler consults the model only inside fixed bounds: its
    answer is the same for any two models that agree on the finds with the
    list projection, a filter asserting [isActive = true], a whitelisted
    sort field, a limit that is an integer from 1 to 100 and an offset that
    is not below zero (an integer or the positive infinity), and on the
    counts with such a filter. *)
Theorem list_query_bounded (lst lst' : Listing) (query : gmap string qval) :
  (∀ filter sort offset l,
      filter !! "isActive" = Some (FBool true) →
      sortField sort ∈ allowed →
      nonNegative offset → 1 ≤ l ≤ 100 →
      find lst filter projection sort offset (Js.Num l)
      = find lst' filter projection sort offset (Js.Num l)) →
  (∀ filter,
      filter !! "isActive" = Some (FBool true) →
      countDocuments lst filter = countDocuments lst' filter) →
  findSettlesFirst lst = findSettlesFirst lst' →
  getProducts lst query = getProducts lst' query.
Proof.
  intros Hfind Hcount Hfirst. unfold getProducts. cbv zeta.
  destruct (parsePagination_shape query) as ((l & Hl & Hlr) & _ & Hskip).
  rewrite Hl.
  rewrite (Hfind _ _ _ l (buildProductFilter_active query)
             (parseSort_field_allowed _) Hskip Hlr).
  rewrite (Hcount _ (buildProductFilter_active query)).
  by rewrite Hfirst.
Qed.

Lemma list_query_bounded_sample :
  getProducts onePage {[ "limit" := QStr "500" ]}
  = getProducts boundedPage {[ "limit" := QStr "500" ]}.
Proof.
  apply list_query_bounded.
  - intros filter sort offset l _ _ _ Hl. cbn.
    destruct (Z.ltb_spec 100 l); [lia | reflexivity].
  - reflexivity.
  - reflexivity.
Defined.

(** ** The cache in front of the routes *)

(** A GET request that is passed on is a miss under its own key. *)
Lemma passed_on_is_miss ttl (req : request) now (store : cacheStore) :
  method req = "GET" →
  callsNext (cacheMiddleware ttl req now store) = true →
  cacheMiddleware ttl req now store = Miss (buildCacheKey req) now.
Proof.
  intros Hget. rewrite cacheMiddleware_get by done.
  destruct (store !! buildCacheKey req) as [cached|]; [|done].
  by destruct (now <? expiresAt cached).
Qed.

(** An empty store misses every GET request. *)
Lemma empty_store_misses ttl (req : request) t :
  method req = "GET" →
  cacheMiddleware ttl req t ∅ = Miss (buildCacheKey req) t.
Proof. intros Hget. by rewrite cacheMiddleware_get, lookup_empty. Qed.

(** The list handler always answers through [res.json], if need be by way
    of the error handler. *)
Lemma getProducts_jsonCall lst query :
  ∃ st b, jsonCall (getProducts lst query) = Some (st, b).
Proof.
  unfold getProducts. cbv zeta.
  destruct (find lst _ _ _ _ _), (countDocuments lst _); cbn; eauto.
Qed.

(** X3. A storage fault on the detail route is cached like any other
    answer: when the lookup of a valid identifier rejects on a cache miss,
    the body the error handler sends is stored, and until the entry expires
    every request for the same key is answered 200 with that body, whatever
    the storage would answer by then. *)
Theorem storage_fault_is_cached (mg : Mongoose) (req : request) (now : Z)
    (store later : cacheStore) (err : jsError) :
  method req = "GET" →
  callsNext (cacheMiddleware DETAIL_TTL req now store) = true →
  isValid mg (id req) = true →
  findById mg (id req) = Rejected err →
  let first := getDetail mg req now store later in
  ∃ st b,
    errorHandler err = Json st b
    ∧ fst first = Response st (Some b)
    ∧ ∀ (mg' : Mongoose) t later',
        t < now + DETAIL_TTL * 1000 →
        getDetail mg' req t (snd first) later' = (Response 200 (Some b), snd first).
Proof.
  intros Hget Hnext Hvalid Hfind first.
  pose proof (passed_on_is_miss _ _ _ _ Hget Hnext) as Hmiss.
  assert (getProductById mg req = Next err) as He
    by (unfold getProductById; by rewrite Hvalid, Hfind).
  destruct (errorHandler err) as [st b| |] eqn:Herr; try done.
  exists st, b. split; [done|].
  assert (first = (Response st (Some b),
                   resJson DETAIL_TTL (buildCacheKey req) now b later)) as ->.
  { subst first. unfold getDetail. rewrite Hmiss, He.
    unfold respond, capture. cbn [jsonCall]. by rewrite Herr. }
  split; [done|]. intros mg' t later' Ht. cbn [snd].
  unfold getDetail.
  by rewrite (proj2 (stored_entry_served DETAIL_TTL req Hget t _ _
                       (resJson_lookup DETAIL_TTL _ now b later)) Ht).
Qed.

Lemma storage_fault_is_cached_sample :
  let fault := JsError None None "pool destroyed" in
  let down : Mongoose :=
    {| isValid := isHex24; create := fun _ => Rejected fault;
       findById := fun _ => Rejected fault;
       findByIdAndUpdate := fun _ _ => Rejected fault;
       findByIdAndDelete := fun _ => Rejected fault |} in
  let req := Request "GET" "/api/products/0123456789abcdef01234567"
               "0123456789abcdef01234567" None in
  let first := getDetail down req 1000 ∅ ∅ in
  ∃ st b,
    errorHandler fault = Json st b
    ∧ fst first = Response st (Some b)
    ∧ ∀ (mg' : Mongoose) t later',
        t < 1000 + DETAIL_TTL * 1000 →
        getDetail mg' req t (snd first) later' = (Response 200 (Some b), snd first).
Proof.
  intros fault down req first.
  exact (storage_fault_is_cached down req 1000 ∅ ∅ fault eq_refl eq_refl eq_refl
           eq_refl).
Defined.

(** X4. A list request repeated before the entry expires is answered from
    the cache without a second storage call: after a miss whose answer was
    stored, the same request is answered 200 with the very payload of the
    first answer, whatever the model would answer by then and whatever
    happened to other keys. *)
Theorem repeated_list_from_cache (lst : Listing) (req : request)
    (query : gmap string qval) (now : Z) (store later : cacheStore) :
  method req = "GET" →
  callsNext (cacheMiddleware LIST_TTL req now store) = true →
  let first := getList lst req query now store later in
  ∃ st b,
    fst first = Response st (Some b)
    ∧ snd first !! buildCacheKey req
      = Some {| payload := b; expiresAt := now + LIST_TTL * 1000 |}
    ∧ ∀ (lst' : Listing) query' t (stored later' : cacheStore),
        stored !! buildCacheKey req = snd first !! buildCacheKey req →
        t < now + LIST_TTL * 1000 →
        getList lst' req query' t stored later' = (Response 200 (Some b), stored).
Proof.
  intros Hget Hnext first.
  pose proof (passed_on_is_miss _ _ _ _ Hget Hnext) as Hmiss.
  destruct (getProducts_jsonCall lst query) as (st & b & Hj).
  exists st, b.
  assert (first = (Response st (Some b),
                   resJson LIST_TTL (buildCacheKey req) now b later)) as ->.
  { subst first. unfold getList. rewrite Hmiss.
    unfold respond, capture. by rewrite Hj. }
  cbn [fst snd]. split; [done|]. split; [apply resJson_lookup|].
  intros lst' query' t stored later' Hsame Ht.
  rewrite resJson_lookup in Hsame. unfold getList.
  by rewrite (proj2 (stored_entry_served LIST_TTL req Hget t _ _ Hsame) Ht).
Qed.

Lemma repeated_list_from_cache_sample :
  let req := Request "GET" "/api/products?limit=10" "" None in
  let first := getList onePage req {[ "limit" := QStr "10" ]} 1000 ∅ ∅ in
  ∃ st b,
    fst first = Response st (Some b)
    ∧ snd first !! buildCacheKey req
      = Some {| payload := b; expiresAt := 1000 + LIST_TTL * 1000 |}
    ∧ ∀ (lst' : Listing) query' t (stored later' : cacheStore),
        stored !! buildCacheKey req = snd first !! buildCacheKey req →
        t < 1000 + LIST_TTL * 1000 →
        getList lst' req query' t stored later' = (Response 200 (Some b), stored).
Proof.
  intros req first.
  exact (repeated_list_from_cache onePage req {[ "limit" := QStr "10" ]} 1000 ∅ ∅
           eq_refl eq_refl).
Defined.

(** X5. After a write that succeeds, every GET request is a miss, whatever
    its key, its route's TTL and the time: no entry stored before the write
    is served after it. *)
Theorem write_success_forces_miss (w : writeRoute) (mg : Mongoose)
    (wreq : request) (store : cacheStore) (ttl : Z) (req : request) (t : Z) :
  succeeded (fst (dispatchWrite w mg wreq store)) = true →
  method req = "GET" →
  cacheMiddleware ttl req t (snd (runWrite w mg wreq store))
  = Miss (buildCacheKey req) t.
Proof.
  intros Hok Hget.
  assert (snd (runWrite w mg wreq store) = ∅) as ->.
  { unfold runWrite. pose proof (dispatchWrite_store w mg wreq store) as Hs.
    destruct (dispatchWrite w mg wreq store) as [e after]. cbn [fst snd] in *.
    by rewrite Hok in Hs. }
  by apply empty_store_misses.
Qed.

Lemma write_success_forces_miss_sample :
  let store : cacheStore := {[ "GET:/api/products" := Entry (message "list") 9000 ]} in
  let wreq := Request "DELETE" "/api/products/0123456789abcdef01234567"
                "0123456789abcdef01234567" None in
  let req := Request "GET" "/api/products" "" None in
  cacheMiddleware 30 req 2000 store = Hit (message "list")
  ∧ cacheMiddleware 30 req 2000 (snd (runWrite Delete acceptingCatalog wreq store))
    = Miss (buildCacheKey req) 2000.
Proof.
  intros store wreq req. split; [reflexivity|].
  exact (write_success_forces_miss Delete acceptingCatalog wreq store 30 req 2000
           eq_refl eq_refl).
Defined.

(** X6. A request whose method is not GET never reads the cache and never
    populates it: the middleware passes it on even when an entry is stored
    under its key, and whatever the handler then emits leaves the store as
    it is. *)
Theorem non_get_bypasses_cache (ttl : Z) (req : request) (now : Z)
    (store later : cacheStore) (e : emission) :
  String.eqb (method req) "GET" = false →
  cacheMiddleware ttl req now store = Bypass
  ∧ callsNext (cacheMiddleware ttl req now store) = true
  ∧ capture ttl (cacheMiddleware ttl req now store) e later = later.
Proof.
  intros Hm. unfold cacheMiddleware. rewrite Hm. cbn [negb].
  repeat split.
Qed.

Lemma non_get_bypasses_cache_sample :
  let req := Request "HEAD" "/api/products" "" None in
  let store : cacheStore := {[ "HEAD:/api/products" := Entry (message "list") 9000 ]} in
  cacheMiddleware 30 req 1000 store = Bypass
  ∧ callsNext (cacheMiddleware 30 req 1000 store) = true
  ∧ capture 30 (cacheMiddleware 30 req 1000 store) (Json 200 (message "fresh")) store
    = store.
Proof.
  intros req store.
  exact (non_get_bypasses_cache 30 req 1000 store store (Json 200 (message "fresh"))
           eq_refl).
Defined.

(** The key of a GET request determines its URL. *)
Lemma get_key_inj (r1 r2 : request) :
  method r1 = "GET" → method r2 = "GET" →
  buildCacheKey r1 = buildCacheKey r2 ↔ originalUrl r1 = originalUrl r2.
Proof.
  intros H1 H2. unfold buildCacheKey. rewrite H1, H2. split.
  - intros H. by do 2 apply (inj (String.app _)) in H.
  - by intros ->.
Qed.

(** X7. GET requests share a cache entry only when their URLs are equal,
    character for character: the answer stored for one URL changes nothing
    in what a request for another URL is served. *)
Theorem distinct_urls_do_not_interfere (ttl ttl' : Z) (r1 r2 : request)
    (now t : Z) (e : emission) (later : cacheStore) :
  method r1 = "GET" → method r2 = "GET" →
  originalUrl r1 ≠ originalUrl r2 →
  buildCacheKey r1 ≠ buildCacheKey r2
  ∧ cacheMiddleware ttl' r2 t (capture ttl (Miss (buildCacheKey r1) now) e later)
    = cacheMiddleware ttl' r2 t later.
Proof.
  intros H1 H2 Hurl.
  assert (buildCacheKey r1 ≠ buildCacheKey r2) as Hkey
    by (by rewrite get_key_inj).
  split; [done|].
  rewrite !cacheMiddleware_get by done. unfold capture.
  destruct (jsonCall e) as [[st b]|]; [|done].
  by rewrite resJson_other.
Qed.

Lemma distinct_urls_do_not_interfere_sample :
  let r1 := Request "GET" "/api/products?limit=10&page=2" "" None in
  let r2 := Request "GET" "/api/products?page=2&limit=10" "" None in
  buildCacheKey r1 ≠ buildCacheKey r2
  ∧ cacheMiddleware 30 r2 2000
      (capture 30 (Miss (buildCacheKey r1) 1000) (Json 200 (message "page 2")) ∅)
    = cacheMiddleware 30 r2 2000 ∅.
Proof.
  intros r1 r2.
  apply (distinct_urls_do_not_interfere 30 30 r1 r2 1000 2000
           (Json 200 (message "page 2")) ∅ eq_refl eq_refl).
  discriminate.
Defined.

(** X8. Invalidation does not cancel a request in flight: when a write
    succeeds between a GET miss and the handler's answer, the answer is
    still stored, in the store the write has just cleared, and is served to
    requests for the same key until the miss time plus the TTL. *)
Theorem pending_miss_survives_invalidation (ttl : Z) (req : request) (now : Z)
    (store mid : cacheStore) (w : writeRoute) (mg : Mongoose) (wreq : request)
    (e : emission) (st : Z) (b : json) :
  method req = "GET" →
  callsNext (cacheMiddleware ttl req now store) = true →
  succeeded (fst (dispatchWrite w mg wreq mid)) = true →
  jsonCall e = Some (st, b) →
  let cleared := snd (runWrite w mg wreq mid) in
  let after := capture ttl (cacheMiddleware ttl req now store) e cleared in
  cleared = ∅
  ∧ after = {[ buildCacheKey req := {| payload := b; expiresAt := now + ttl * 1000 |} ]}
  ∧ ∀ t, t < now + ttl * 1000 → cacheMiddleware ttl req t after = Hit b.
Proof.
  intros Hget Hnext Hok Hj cleared after.
  assert (cleared = ∅) as Hcleared.
  { subst cleared. unfold runWrite.
    pose proof (dispatchWrite_store w mg wreq mid) as Hs.
    destruct (dispatchWrite w mg wreq mid) as [e' s']. cbn [fst snd] in *.
    by rewrite Hok in Hs. }
  assert (after = {[ buildCacheKey req
                     := {| payload := b; expiresAt := now + ttl * 1000 |} ]}) as Hafter.
  { subst after. rewrite (passed_on_is_miss _ _ _ _ Hget Hnext), Hcleared.
    unfold capture. rewrite Hj. unfold resJson. apply insert_empty. }
  split; [done|]. split; [done|]. intros t Ht. rewrite Hafter.
  apply (stored_entry_served ttl req Hget t _
           {| payload := b; expiresAt := now + ttl * 1000 |}); [|done].
  apply lookup_singleton_eq.
Qed.

Lemma pending_miss_survives_invalidation_sample :
  let req := Request "GET" "/api/products" "" None in
  let wreq := Request "DELETE" "/api/products/0123456789abcdef01234567"
                "0123456789abcdef01234567" None in
  let cleared := snd (runWrite Delete acceptingCatalog wreq ∅) in
  let after :=
    capture 30 (cacheMiddleware 30 req 1000 ∅) (Json 200 (message "before")) cleared in
  cleared = ∅
  ∧ after = {[ buildCacheKey req := {| payload := message "before";
                                       expiresAt := 1000 + 30 * 1000 |} ]}
  ∧ ∀ t, t < 1000 + 30 * 1000 → cacheMiddleware 30 req t after = Hit (message "before").
Proof.
  intros req wreq cleared after.
  exact (pending_miss_survives_invalidation 30 req 1000 ∅ ∅ Delete acceptingCatalog
           wreq (Json 200 (message "before")) 200 (message "before")
           eq_refl eq_refl eq_refl eq_refl).
Defined.

(** ** Handlers: which answers of the storage lead where *)

(** X9. The detail handler answers 200 exactly when the identifier is valid
    and the lookup finds a document, and the body is then that document as
    found; an invalid identifier is answered 400 without any lookup, so the
    answer is the same whatever the storage holds. *)
Theorem detail_found_iff (mg : Mongoose) (req : request) (doc : json) :
  (getProductById mg req = Json 200 doc
   ↔ isValid mg (id req) = true ∧ findById mg (id req) = Resolved (Some doc))
  ∧ (isValid mg (id req) = false →
     ∀ mg' : Mongoose, isValid mg' (id req) = false →
       getProductById mg' req = getProductById mg req).
Proof.
  split.
  - unfold getProductById. destruct (isValid mg (id req)); cbn [negb].
    + destruct (findById mg (id req)) as [[product|]|err]; split;
        try (intros H; by injection H as ->); try (by intros [_ H]); try done.
      intros [_ H]. by injection H as ->.
    + split; [done | by intros [? _]].
  - intros Hv mg' Hv'. unfold getProductById. by rewrite Hv, Hv'.
Qed.

(** X10. An update answers 200 with the updated document, and a delete
    answers 204 without a body, exactly when the identifier is valid and the
    storage found the document; these are also exactly the cases in which
    the write clears the cache, a non-empty store being left as it is in
    every other case. *)
Theorem update_delete_succeed_iff (mg : Mongoose) (req : request)
    (store : cacheStore) (doc : json) :
  (fst (updateProduct mg req store) = Json 200 doc
   ↔ isValid mg (id req) = true
     ∧ findByIdAndUpdate mg (id req) (bodyOrEmpty (body req)) = Resolved (Some doc))
  ∧ (fst (deleteProduct mg req store) = Send 204
     ↔ isValid mg (id req) = true
       ∧ ∃ gone, findByIdAndDelete mg (id req) = Resolved (Some gone))
  ∧ (store ≠ ∅ →
     (snd (updateProduct mg req store) = ∅
      ↔ ∃ d, fst (updateProduct mg req store) = Json 200 d)
     ∧ (snd (deleteProduct mg req store) = ∅
        ↔ fst (deleteProduct mg req store) = Send 204)).
Proof.
  split; [|split].
  - unfold updateProduct. destruct (isValid mg (id req)); cbn [negb].
    + destruct (findByIdAndUpdate mg (id req) (bodyOrEmpty (body req)))
        as [[product|]|err]; cbn [fst].
      * split; [intros H; by injection H as -> | intros [_ H]; by injection H as ->].
      * split; [done | by intros [_ ?]].
      * destruct (isDuplicateKey err); split; try done; by intros [_ ?].
    + split; [done | by intros [? _]].
  - unfold deleteProduct. destruct (isValid mg (id req)); cbn [negb].
    + destruct (findByIdAndDelete mg (id req)) as [[gone|]|err]; cbn [fst].
      * split; [eauto | done].
      * split; [done | by intros [_ [? ?]]].
      * split; [done | by intros [_ [? ?]]].
    + split; [done | by intros [? _]].
  - intros Hne. split.
    + unfold updateProduct. destruct (isValid mg (id req)); cbn [negb].
      * destruct (findByIdAndUpdate mg (id req) (bodyOrEmpty (body req)))
          as [[product|]|err]; cbn [fst snd].
        -- split; [eauto | done].
        -- split; [done | by intros [? ?]].
        -- destruct (isDuplicateKey err); split; try done; by intros [? ?].
      * split; [done | by intros [? ?]].
    + unfold deleteProduct. destruct (isValid mg (id req)); cbn [negb].
      * destruct (findByIdAndDelete mg (id req)) as [[gone|]|err]; cbn [fst snd];
          split; done.
      * split; done.
Qed.

(** Reading a field of the payload of a create. *)
Lemma createPayload_agree (b b' : json) :
  Forall (λ k, field k b = field k b') createFields →
  createPayload b = createPayload b'.
Proof.
  unfold createFields, createPayload. intros H.
  repeat (apply Forall_cons in H as [-> H]). reflexivity.
Qed.

(** X11. A create reads ten fields off the body and nothing else: two
    bodies that agree on [name], [slug], [price], [category],
    [shortDescription], [description], [imageUrl], [thumbnailUrl], [tags]
    and [stock] are answered alike and hand the same object to the storage,
    so that a field such as [isActive], [rating] or [reviews] in the body
    never reaches it. *)
Theorem create_ignores_other_fields (mg : Mongoose) (m u i : string)
    (b b' : option json) (store : cacheStore) :
  Forall (λ k, field k (bodyOrEmpty b) = field k (bodyOrEmpty b')) createFields →
  createPayload (bodyOrEmpty b) = createPayload (bodyOrEmpty b')
  ∧ createProduct mg (Request m u i b) store
    = createProduct mg (Request m u i b') store.
Proof.
  intros H. pose proof (createPayload_agree _ _ H) as Hpay.
  split; [done|]. unfold createProduct. cbn [body]. rewrite <- Hpay.
  unfold createFields in H.
  apply Forall_cons in H as [-> H]. apply Forall_cons in H as [-> H].
  apply Forall_cons in H as [-> H]. apply Forall_cons in H as [-> H].
  reflexivity.
Qed.

Lemma create_ignores_other_fields_sample :
  let lamp := [("name", JString "Lamp"); ("slug", JString "lamp");
               ("price", JNumber (Js.NumDecimal false 0 0));
               ("category", JString "home")] in
  let plain := Some (JObject lamp) in
  let padded := Some (JObject (("isActive", JBool false)
                               :: ("rating", JNumber (Js.NumDecimal false 5 0))
                               :: lamp)) in
  createPayload (bodyOrEmpty plain) = createPayload (bodyOrEmpty padded)
  ∧ createProduct acceptingCatalog (Request "POST" "/api/products" "" plain) ∅
    = createProduct acceptingCatalog (Request "POST" "/api/products" "" padded) ∅.
Proof.
  intros lamp plain padded.
  apply (create_ignores_other_fields acceptingCatalog "POST" "/api/products" ""
           plain padded ∅).
  repeat constructor.
Defined.

(** X12. A create is answered 400, with the message that names the four
    required fields, exactly when [name], [slug] or [category] is falsy
    (missing, [null], [false], 0 or the empty string) or [price] is missing
    or [null]; the storage is then not called. The number 0 is falsy but
    not [null], so a price of 0 passes where a name of 0 does not. *)
Theorem create_rejected_iff (mg : Mongoose) (req : request) (store : cacheStore) :
  let b := bodyOrEmpty (body req) in
  (fst (createProduct mg req store)
   = Json 400 (message "name, slug, price and category are required")
   ↔ falsy (field "name" b) = true ∨ falsy (field "slug" b) = true
     ∨ nullish (field "price" b) = true ∨ falsy (field "category" b) = true)
  ∧ (fst (createProduct mg req store)
     = Json 400 (message "name, slug, price and category are required") →
     ∀ mg' : Mongoose, createProduct mg' req store = createProduct mg req store)
  ∧ falsy (Some (JNumber (Js.NumDecimal false 0 0))) = true
  ∧ nullish (Some (JNumber (Js.NumDecimal false 0 0))) = false.
Proof.
  intros b. subst b.
  assert (fst (createProduct mg req store)
          = Json 400 (message "name, slug, price and category are required")
          ↔ requiredPresent (body req) = false) as Hiff.
  { destruct (requiredPresent (body req)) eqn:Hreq.
    - rewrite (createProduct_complete mg req store Hreq).
      destruct (create mg _) as [product|err]; cbn [fst]; [done|].
      by destruct (isDuplicateKey err).
    - by rewrite createProduct_missing_field. }
  split; [|split; [|split; reflexivity]].
  - rewrite Hiff. unfold requiredPresent.
    destruct (falsy (field "name" _)), (falsy (field "slug" _)),
             (nullish (field "price" _)), (falsy (field "category" _));
      cbn; intuition discriminate.
  - intros H%Hiff mg'. by rewrite !createProduct_missing_field.
Qed.

(** ** Filter builder: what reaches the storage *)

(** The category and text keys are decided by their own step alone. *)
Lemma buildProductFilter_category (query : gmap string qval) :
  buildProductFilter query !! "category"
  = if truthy (query !! "category")
    then Some (FStr (Js.toLowerCase (toString (query !! "category"))))
    else None.
Proof.
  unfold buildProductFilter.
  repeat case_match;
    rewrite ?lookup_insert_eq, ?lookup_insert_ne, ?lookup_empty by done;
    try reflexivity; try discriminate.
Qed.

Lemma buildProductFilter_text (query : gmap string qval) :
  buildProductFilter query !! "$text"
  = if truthy (query !! "search")
    then Some (FSearch (toString (query !! "search")))
    else None.
Proof.
  unfold buildProductFilter.
  repeat case_match;
    rewrite ?lookup_insert_eq, ?lookup_insert_ne, ?lookup_empty by done;
    try reflexivity; try discriminate.
Qed.

(** X13. Whatever the query mapping holds, the keys of the filter are among
    [isActive], [category], [price], [tags] and [$text], and [isActive] is
    always one of them: a query parameter never adds an operator or a field
    of its own to the filter. *)
Theorem filter_vocabulary (query : gmap string qval) :
  dom (buildProductFilter query)
    ⊆ ({[ "isActive"; "category"; "price"; "tags"; "$text" ]} : gset string)
  ∧ "isActive" ∈ dom (buildProductFilter query).
Proof.
  split.
  - intros k Hk. apply elem_of_dom in Hk.
    rewrite !elem_of_union, !elem_of_singleton.
    destruct (decide (k = "category")) as [|Hc]; [tauto|].
    destruct (decide (k = "price")) as [|Hp]; [tauto|].
    destruct (decide (k = "tags")) as [|Ht]; [tauto|].
    destruct (decide (k = "$text")) as [|Hs]; [tauto|].
    rewrite buildProductFilter_other_keys in Hk by done.
    destruct (decide (k = "isActive")) as [|Ha]; [tauto|].
    rewrite lookup_singleton_ne in Hk by done. by destruct Hk.
  - apply elem_of_dom. rewrite buildProductFilter_active. by eexists.
Qed.

Example filter_vocabulary_injection :
  buildProductFilter {[ "$where" := QStr "sleep(1000)"; "price" := QStr "0";
                        "isActive" := QStr "false" ]}
  = buildProductFilter ∅.
Proof. vm_compute. reflexivity. Qed.

(** X14. Each resolver reads its own parameters only: the filter is the
    same when any parameter other than [category], [minPrice], [maxPrice],
    [tags] and [search] is added, changed or removed, and the pagination is
    the same when any parameter other than [page] and [limit] is; so the
    filter, and with it the total, does not depend on the page asked for. *)
Theorem resolvers_read_own_parameters (query : gmap string qval) (k : string)
    (v : qval) :
  (k ≠ "category" → k ≠ "minPrice" → k ≠ "maxPrice" → k ≠ "tags" → k ≠ "search" →
   buildProductFilter (<[ k := v ]> query) = buildProductFilter query
   ∧ buildProductFilter (delete k query) = buildProductFilter query)
  ∧ (k ≠ "page" → k ≠ "limit" →
     parsePagination (<[ k := v ]> query) = parsePagination query
     ∧ parsePagination (delete k query) = parsePagination query)
  ∧ buildProductFilter (<[ "page" := v ]> (<[ "limit" := v ]> (<[ "sort" := v ]> query)))
    = buildProductFilter query.
Proof.
  assert (∀ k v q,
            k ≠ "category" → k ≠ "minPrice" → k ≠ "maxPrice" → k ≠ "tags" →
            k ≠ "search" →
            buildProductFilter (<[ k := v ]> q) = buildProductFilter q) as Hins.
  { intros k' v' q ? ? ? ? ?. unfold buildProductFilter.
    by rewrite !lookup_insert_ne by done. }
  split; [|split].
  - intros ? ? ? ? ?. split; [by apply Hins|].
    unfold buildProductFilter. by rewrite !lookup_delete_ne by done.
  - intros ? ?. unfold parsePagination.
    by rewrite !lookup_insert_ne, !lookup_delete_ne by done.
  - by rewrite !Hins.
Qed.

(** Lower-casing twice is lower-casing once, and keeps a string empty or
    not. *)
Lemma toLowerCase_idem s : Js.toLowerCase (Js.toLowerCase s) = Js.toLowerCase s.
Proof.
  induction s as [|c s IH]; [done|]. cbn. rewrite IH. f_equal.
  destruct c as [[] [] [] [] [] [] [] []]; vm_compute; reflexivity.
Qed.

Lemma toLowerCase_empty s :
  String.eqb (Js.toLowerCase s) "" = String.eqb s "".
Proof. by destruct s. Qed.

(** X15. The category predicate does not depend on the case of the
    parameter: a category given as a string yields the same filter as its
    lower-case form, the predicate being the lower-cased string (without
    capital letters) for a non-empty category and absent for an empty one. *)
Theorem category_case_insensitive (query : gmap string qval) (c : string) :
  query !! "category" = Some (QStr c) →
  buildProductFilter (<[ "category" := QStr (Js.toLowerCase c) ]> query)
  = buildProductFilter query
  ∧ hasUpper (Js.toLowerCase c) = false
  ∧ buildProductFilter query !! "category"
    = if String.eqb c "" then None else Some (FStr (Js.toLowerCase c)).
Proof.
  intros Hq. split; [|split].
  - unfold buildProductFilter.
    rewrite lookup_insert_eq, !lookup_insert_ne, Hq by done.
    cbn [truthy toString qToString].
    by rewrite toLowerCase_idem, toLowerCase_empty.
  - apply toLowerCase_no_upper.
  - rewrite buildProductFilter_category, Hq. cbn [truthy toString qToString].
    by destruct (String.eqb c "").
Qed.

Lemma category_case_insensitive_sample :
  let query : gmap string qval := {[ "category" := QStr "ShOeS"; "tags" := QStr "red" ]} in
  buildProductFilter (<[ "category" := QStr (Js.toLowerCase "ShOeS") ]> query)
  = buildProductFilter query
  ∧ hasUpper (Js.toLowerCase "ShOeS") = false
  ∧ buildProductFilter query !! "category"
    = if String.eqb "ShOeS" "" then None else Some (FStr (Js.toLowerCase "ShOeS")).
Proof.
  intros query. apply (category_case_insensitive query "ShOeS"). reflexivity.
Defined.

(** X16. The search text reaches the storage as it was given: for a search
    parameter that is a non-empty string the text predicate holds that very
    string, with its case and its white space, even when it is white space
    only; without the parameter, or with an empty one, there is no text
    predicate. *)
Theorem search_text_verbatim (query : gmap string qval) :
  (∀ s, query !! "search" = Some (QStr s) → s ≠ EmptyString →
        buildProductFilter query !! "$text" = Some (FSearch s))
  ∧ (query !! "search" = None ∨ query !! "search" = Some (QStr "") →
     buildProductFilter query !! "$text" = None)
  ∧ buildProductFilter {[ "search" := QStr "  " ]} !! "$text" = Some (FSearch "  ").
Proof.
  split; [|split].
  - intros s Hq Hs. rewrite buildProductFilter_text, Hq. cbn.
    by destruct (String.eqb_spec s "").
  - intros [Hq|Hq]; by rewrite buildProductFilter_text, Hq.
  - by rewrite buildProductFilter_text.
Qed.

(** X17. Two price bounds that convert to numbers are written as given,
    [$gte] for [minPrice] and [$lte] for [maxPrice]; they are not compared,
    so a minimum above the maximum is kept. When one of the two given
    bounds does not convert to a number, the predicate holds the other
    bound alone. *)
Theorem price_bounds_as_given (query : gmap string qval) (vmin vmax : qval) :
  query !! "minPrice" = Some vmin → query !! "maxPrice" = Some vmax →
  (toNumber vmin ≠ Js.NumNaN → toNumber vmax ≠ Js.NumNaN →
   buildProductFilter query !! "price"
   = Some (FRange {[ "$gte" := Bound (toNumber vmin);
                     "$lte" := Bound (toNumber vmax) ]}))
  ∧ (toNumber vmin ≠ Js.NumNaN → toNumber vmax = Js.NumNaN →
     buildProductFilter query !! "price"
     = Some (FRange {[ "$gte" := Bound (toNumber vmin) ]}))
  ∧ (toNumber vmin = Js.NumNaN → toNumber vmax ≠ Js.NumNaN →
     buildProductFilter query !! "price"
     = Some (FRange {[ "$lte" := Bound (toNumber vmax) ]})).
Proof.
  intros Hmin Hmax. rewrite buildProductFilter_price, Hmin, Hmax.
  unfold priceStep. cbn [readBound].
  assert (∀ n, n ≠ Js.NumNaN → boundIsNaN (Bound n) = false) as Hok
    by (intros [] ?; done).
  split; [|split].
  - intros H1 H2. rewrite (Hok _ H1), (Hok _ H2). cbn [negb orb].
    rewrite lookup_insert_eq, (insert_insert_ne _ "$lte" "$gte") by done.
    by rewrite insert_empty.
  - intros H1 H2. rewrite (Hok _ H1), H2. cbn [negb orb boundIsNaN].
    rewrite lookup_insert_eq. by rewrite insert_empty.
  - intros H1 H2. rewrite H1, (Hok _ H2). cbn [negb orb boundIsNaN].
    rewrite lookup_insert_eq. by rewrite insert_empty.
Qed.

Lemma price_bounds_as_given_sample :
  let query : gmap string qval := {[ "minPrice" := QStr "10"; "maxPrice" := QStr "5" ]} in
  buildProductFilter query !! "price"
  = Some (FRange {[ "$gte" := Bound (Js.NumDecimal false 10 0);
                    "$lte" := Bound (Js.NumDecimal false 5 0) ]}).
Proof.
  intros query.
  apply (price_bounds_as_given query (QStr "10") (QStr "5") eq_refl eq_refl);
    discriminate.
Defined.

(** Lower-casing commutes with splitting on commas and with trimming. *)
Lemma split_toLowerCase s :
  Js.split "," (Js.toLowerCase s) = map Js.toLowerCase (Js.split "," s).
Proof.
  induction s as [|c s IH]; [done|]. cbn [Js.toLowerCase Js.split].
  destruct (lowerChar_facts c) as (_ & _ & ->). rewrite IH.
  destruct (Ascii.eqb c ","); [done|].
  by destruct (Js.split "," s).
Qed.

Lemma trimStart_toLowerCase s :
  Js.trimStart (Js.toLowerCase s) = Js.toLowerCase (Js.trimStart s).
Proof.
  induction s as [|c s IH]; [done|]. cbn [Js.toLowerCase Js.trimStart].
  destruct (lowerChar_facts c) as (_ & -> & _).
  by destruct (Js.isWhiteSpace c).
Qed.

Lemma trimEnd_toLowerCase s :
  Js.trimEnd (Js.toLowerCase s) = Js.toLowerCase (Js.trimEnd s).
Proof.
  induction s as [|c s IH]; [done|]. cbn [Js.toLowerCase Js.trimEnd].
  rewrite IH. destruct (lowerChar_facts c) as (_ & -> & _).
  destruct (Js.trimEnd s); [|done]. cbn [Js.toLowerCase].
  by destruct (Js.isWhiteSpace c).
Qed.

Lemma trim_toLowerCase s : Js.trim (Js.toLowerCase s) = Js.toLowerCase (Js.trim s).
Proof. unfold Js.trim. by rewrite trimStart_toLowerCase, trimEnd_toLowerCase. Qed.

(** X19. The tag predicate does not depend on the case of the parameter:
    the tags read off a string and off its lower-case form are the same
    list, so [tags=RED, Blue] and [tags=red, blue] give the same filter. *)
Theorem tags_case_insensitive (query : gmap string qval) (s : string) :
  query !! "tags" = Some (QStr s) →
  tagList (Js.toLowerCase s) = tagList s
  ∧ buildProductFilter (<[ "tags" := QStr (Js.toLowerCase s) ]> query)
    = buildProductFilter query.
Proof.
  intros Hq.
  assert (tagList (Js.toLowerCase s) = tagList s) as Htags.
  { unfold tagList. rewrite split_toLowerCase, map_map.
    apply (f_equal (List.filter _)), List.map_ext. intros p.
    by rewrite trim_toLowerCase, toLowerCase_idem. }
  split; [done|]. unfold buildProductFilter.
  rewrite lookup_insert_eq, !lookup_insert_ne, Hq by done.
  cbn [truthy toString qToString]. by rewrite toLowerCase_empty, Htags.
Qed.

Lemma tags_case_insensitive_sample :
  let query : gmap string qval := {[ "tags" := QStr "RED, Blue" ]} in
  tagList (Js.toLowerCase "RED, Blue") = tagList "RED, Blue"
  ∧ buildProductFilter (<[ "tags" := QStr (Js.toLowerCase "RED, Blue") ]> query)
    = buildProductFilter query.
Proof.
  intros query. apply (tags_case_insensitive query "RED, Blue"). reflexivity.
Defined.

(** X20. The list handler answers 200 only when both queries resolve: when
    the page query or the count rejects, the request is forwarded to the
    error handler with one of the rejections, the other query's result
    being dropped; the handler itself never answers with an error status. *)
Theorem list_fault_forwarded (lst : Listing) (query : gmap string qval) :
  let found := find lst (buildProductFilter query) projection
                 (parseSort (query !! "sort")) (skip (parsePagination query))
                 (limit (parsePagination query)) in
  let counted := countDocuments lst (buildProductFilter query) in
  ((∃ err, getProducts lst query = Next err)
   ↔ (∃ err, found = Rejected err) ∨ (∃ err, counted = Rejected err))
  ∧ (∀ err, getProducts lst query = Next err →
            found = Rejected err ∨ counted = Rejected err)
  ∧ (∀ st b, getProducts lst query = Json st b → st = 200)
  ∧ (∀ st, getProducts lst query ≠ Send st).
Proof.
  intros found counted. subst found counted. unfold getProducts. cbv zeta.
  destruct (find lst _ _ _ _ _) as [items|e1], (countDocuments lst _) as [total|e2].
  - repeat split; try done.
    + by intros [? ?].
    + intros [[? ?]|[? ?]]; done.
    + by intros st b [= <- _].
  - repeat split; try done; eauto.
    intros err [= <-]. by right.
  - repeat split; try done; eauto.
    intros err [= <-]. by left.
  - repeat split; try done; eauto.
    intros err [= <-]. destruct (findSettlesFirst lst); [by left | by right].
Qed.

(** X21. A request without a usable body: when [req.body] is missing or
    falsy, a create is answered 400 without calling the storage, and an
    update sends the storage the empty object, as for the body [{}]. *)
Theorem missing_body (mg : Mongoose) (m u i : string) (b : option json)
    (store : cacheStore) :
  falsy b = true →
  createProduct mg (Request m u i b) store
  = (Json 400 (message "name, slug, price and category are required"), store)
  ∧ updateProduct mg (Request m u i b) store
    = updateProduct mg (Request m u i (Some (JObject []))) store
  ∧ bodyOrEmpty b = JObject [].
Proof.
  intros Hb.
  assert (bodyOrEmpty b = JObject []) as Hempty
    by (unfold bodyOrEmpty; by rewrite Hb).
  split; [|split; [|done]].
  - apply createProduct_missing_field. unfold requiredPresent. cbn [body].
    by rewrite Hempty.
  - unfold updateProduct. cbn [body id]. by rewrite Hempty.
Qed.

Lemma missing_body_sample :
  createProduct acceptingCatalog (Request "POST" "/api/products" "" None) ∅
  = (Json 400 (message "name, slug, price and category are required"), ∅)
  ∧ updateProduct acceptingCatalog
      (Request "PUT" "/api/products/0123456789abcdef01234567"
         "0123456789abcdef01234567" (Some JNull)) ∅
    = updateProduct acceptingCatalog
        (Request "PUT" "/api/products/0123456789abcdef01234567"
           "0123456789abcdef01234567" (Some (JObject []))) ∅.
Proof.
  split.
  - apply (missing_body acceptingCatalog "POST" "/api/products" "" None ∅ eq_refl).
  - apply (missing_body acceptingCatalog "PUT"
             "/api/products/0123456789abcdef01234567"
             "0123456789abcdef01234567" (Some JNull) ∅ eq_refl).
Defined.
